(** * IMJM chat delivery pipeline

    A shallow embedding of
    - [IMJM-client/src/services/chat/WebSocketService.ts] (session handle,
      listener registry, send pipeline),
    - the admin file upload service ([AdminFileUploadService], single and
      multiple image upload),
    - [NCPObjectStorageService.deleteFolder] (Java, S3 client),
    with the properties of the chat delivery specification stated over it.

    JavaScript values are modelled as follows.  Object identity (a STOMP
    [Client], a listener callback) is a natural number; a callback's code is
    looked up in a table.  Mutable objects live in one [World] record that
    every method threads through.  An [async] method is run to completion:
    the answer of each awaited HTTP call is given by an environment function,
    and no other method of the service runs between the suspension and the
    resumption of the call. *)

From stdpp Require Import gmap strings list fin_maps pretty.

Open Scope string_scope.
Open Scope list_scope.

(** ** JavaScript values shared by the two client services *)

(** Values that the modelled code throws: [new Error(message)], and the
    rejection of an axios promise, which carries [error.response.status]
    when the server answered. *)
Inductive JsError :=
| Error (message : string)
| AxiosError (status : option Z).

Inductive Outcome (A : Type) :=
| Returns (a : A)
| Throws (e : JsError).
Arguments Returns {A} a.
Arguments Throws {A} e.

(** The settlement of an axios request. *)
Inductive HttpResponse (A : Type) :=
| Resolved (data : A)
| Rejected (status : option Z).
Arguments Resolved {A} data.
Arguments Rejected {A} status.

(** A browser [File]: only [name] and [size] are read. *)
Record File := { file_name : string; file_size : Z }.

Inductive HttpRequest :=
| GET_chat_room (chatRoomId : Z)                 (* GET /api/chat/room/${chatRoomId} *)
| POST_upload (file : File) (chatRoomId : Z).    (* POST /api/admin/chat/upload, multipart *)

(** A listener callback, compared by reference ([indexOf] uses [===]). *)
Definition Listener := nat.

(** The argument handed to listeners: the error objects the service builds
    itself, [{code, message}], or a parsed inbound payload. *)
Inductive Data :=
| ErrorInfo (code message : string)
| Parsed (json : string).

(** A frame given to [client.publish]. *)
Record Frame := {
  destination : string;
  body : string;
  headers : list (string * string)
}.

(** A STOMP [Client] object, reduced to what the service drives or reads:
    [active] is set by [activate()] and cleared by [deactivate()];
    [connected] is the library's getter; [outbox] collects the frames
    passed to [publish]. *)
Record Client := {
  active : bool;
  connected : bool;
  outbox : list Frame
}.

(** The heap of the page.  [client], [listeners] and [userId] are the private
    fields of the [WebSocketService] singleton; [clients] holds every
    [Client] object created so far ([client] is an index into it);
    [dispatched] records each call of [notifyListeners], [invoked] each call
    of a listener, [http] each axios request issued. *)
Record World := {
  client : option nat;
  listeners : gmap string (list Listener);
  userId : option string;
  clients : list Client;
  dispatched : list (string * Data);
  invoked : list (Listener * Data);
  http : list HttpRequest
}.

Definition set_client (c : option nat) (w : World) : World :=
  {| client := c; listeners := listeners w; userId := userId w;
     clients := clients w; dispatched := dispatched w;
     invoked := invoked w; http := http w |}.

Definition set_listeners (m : gmap string (list Listener)) (w : World) : World :=
  {| client := client w; listeners := m; userId := userId w;
     clients := clients w; dispatched := dispatched w;
     invoked := invoked w; http := http w |}.

Definition set_userId (u : option string) (w : World) : World :=
  {| client := client w; listeners := listeners w; userId := u;
     clients := clients w; dispatched := dispatched w;
     invoked := invoked w; http := http w |}.

Definition set_clients (cs : list Client) (w : World) : World :=
  {| client := client w; listeners := listeners w; userId := userId w;
     clients := cs; dispatched := dispatched w;
     invoked := invoked w; http := http w |}.

Definition log_dispatched (e : string * Data) (w : World) : World :=
  {| client := client w; listeners := listeners w; userId := userId w;
     clients := clients w; dispatched := dispatched w ++ [e];
     invoked := invoked w; http := http w |}.

Definition log_invoked (es : list (Listener * Data)) (w : World) : World :=
  {| client := client w; listeners := listeners w; userId := userId w;
     clients := clients w; dispatched := dispatched w;
     invoked := invoked w ++ es; http := http w |}.

Definition log_http (r : HttpRequest) (w : World) : World :=
  {| client := client w; listeners := listeners w; userId := userId w;
     clients := clients w; dispatched := dispatched w;
     invoked := invoked w; http := http w ++ [r] |}.

(** The singleton as exported: [listeners = {message: [], error: []}], no
    client, no user. *)
Definition initial_World : World :=
  {| client := None;
     listeners := <["message" := []]> (<["error" := []]> ∅);
     userId := None; clients := []; dispatched := []; invoked := []; http := [] |}.

(** What a listener body does to the service when it runs.  [Raise] is an
    exception escaping the listener; the commands after it are not run. *)
Inductive Cmd :=
| CallAdd (event : string) (callback : Listener)
| CallRemove (event : string) (callback : Listener)
| Raise.

(** [Array.prototype.indexOf]: the first index holding [x]; [None] is -1. *)
Fixpoint indexOf (arr : list Listener) (x : Listener) : option nat :=
  match arr with
  | [] => None
  | y :: rest => if decide (y = x) then Some 0 else S <$> indexOf rest x
  end.

(** ** WebSocketService: listener registry *)

(** The registry is an object literal, so a name it has no key for is looked
    up in [Object.prototype].  These are the members every object inherits:
    for such a name [this.listeners[event]] is a truthy value that is no
    array, unless the registry has a key of its own of that name. *)
Definition Object_prototype_members : list string :=
  ["constructor"; "hasOwnProperty"; "isPrototypeOf"; "propertyIsEnumerable";
   "toLocaleString"; "toString"; "valueOf"; "__defineGetter__";
   "__defineSetter__"; "__lookupGetter__"; "__lookupSetter__"; "__proto__"].

Definition inherited (event : string) : bool :=
  bool_decide (event ∈ Object_prototype_members).

(** [this.listeners[event]] is an inherited member: [push] and [indexOf] do
    not exist on it, and [addListener] and [removeListener] end in a
    TypeError without having changed anything. *)
Definition throws_TypeError (event : string) (w : World) : bool :=
  match listeners w !! event with
  | Some _ => false
  | None => inherited event
  end.

(** [addListener(event, callback)]: a missing key gets a fresh array, then
    [push]; for an inherited member no key is created and [push] throws. *)
Definition addListener (event : string) (callback : Listener) (w : World) : World :=
  match listeners w !! event with
  | Some arr => set_listeners (<[event := arr ++ [callback]]> (listeners w)) w
  | None =>
      if inherited event then w
      else set_listeners (<[event := [callback]]> (listeners w)) w
  end.

(** [removeListener(event, callback)]: [splice(index, 1)] on the array of the
    event, in place; nothing when the key or the callback is absent (for an
    inherited member [indexOf] throws, and nothing has changed either). *)
Definition removeListener (event : string) (callback : Listener) (w : World) : World :=
  match listeners w !! event with
  | Some arr =>
      match indexOf arr callback with
      | Some index => set_listeners (<[event := delete index arr]> (listeners w)) w
      | None => w
      end
  | None => w
  end.

(** The body of a listener: it stops at the first exception, its own
    ([Raise]) or the TypeError of a registry call. *)
Fixpoint run_cmds (cs : list Cmd) (w : World) : World :=
  match cs with
  | [] => w
  | CallAdd event l :: rest =>
      if throws_TypeError event w then w
      else run_cmds rest (addListener event l w)
  | CallRemove event l :: rest =>
      if throws_TypeError event w then w
      else run_cmds rest (removeListener event l w)
  | Raise :: _ => w
  end.

(** ** WebSocketService: session handle *)

Definition update_client (c : nat) (f : Client -> Client) (w : World) : World :=
  set_clients (alter f c (clients w)) w.

(** [client.activate()] and [client.deactivate()] of the STOMP library. *)
Definition activate (cl : Client) : Client :=
  {| active := true; connected := connected cl; outbox := outbox cl |}.

Definition deactivate (cl : Client) : Client :=
  {| active := false; connected := false; outbox := outbox cl |}.

Definition set_connected (b : bool) (cl : Client) : Client :=
  {| active := active cl; connected := b; outbox := outbox cl |}.

Definition publish (fr : Frame) (cl : Client) : Client :=
  {| active := active cl; connected := connected cl; outbox := outbox cl ++ [fr] |}.

(** [new Client({...})]: not yet activated. *)
Definition new_Client : Client :=
  {| active := false; connected := false; outbox := [] |}.

(** [isConnected()]: [this.client !== null && this.client.connected]. *)
Definition isConnected (w : World) : bool :=
  match client w ≫= (λ c, clients w !! c) with
  | Some cl => connected cl
  | None => false
  end.

(** [disconnect()]. *)
Definition disconnect (w : World) : World :=
  match client w with
  | Some c => set_client None (update_client c deactivate w)
  | None => w
  end.

(** [initialize(userId)]: the existing client is disconnected only under the
    guard [this.client && this.client.connected]; then a new [Client] is
    created, stored in [this.client] and activated.  The handlers installed on
    the client run later, on transport events. *)
Definition initialize (uid : string) (w : World) : World :=
  let w := set_userId (Some uid) w in
  let w := if isConnected w then disconnect w else w in
  let c := length (clients w) in
  let w := set_client (Some c) (set_clients (clients w ++ [new_Client]) w) in
  update_client c activate w.

(** Transport events on a client object: the connection is acknowledged, or
    the socket closes while the client stays active (the library reconnects
    after [reconnectDelay]). *)
Definition transport_connected (c : nat) (w : World) : World :=
  update_client c (λ cl, if active cl then set_connected true cl else cl) w.

Definition transport_closed (c : nat) (w : World) : World :=
  update_client c (set_connected false) w.

(** A live session is a client object that has been activated and not
    deactivated since. *)
Definition live_count (w : World) : nat :=
  length (filter (λ cl, active cl = true) (clients w)).

Inductive Op :=
| OpInitialize (uid : string)
| OpDisconnect
| EvConnected (c : nat)
| EvClosed (c : nat).

Definition step (o : Op) (w : World) : World :=
  match o with
  | OpInitialize uid => initialize uid w
  | OpDisconnect => disconnect w
  | EvConnected c => transport_connected c w
  | EvClosed c => transport_closed c w
  end.

Definition run (ops : list Op) (w : World) : World := foldl (λ w o, step o w) w ops.

(** Every [initialize] of the run finds the service without a client or with
    a connected one. *)
Fixpoint timely (ops : list Op) (w : World) : bool :=
  match ops with
  | [] => true
  | o :: rest =>
      match o with
      | OpInitialize _ =>
          match client w with Some _ => isConnected w | None => true end
      | _ => true
      end && timely rest (step o w)
  end.

(** ** What the model takes from outside

    [ChatPhoto] is declared in [./ChatService], which is not part of the
    modelled files: the payload is parametric in it. *)

Record MessagePayload (ChatPhoto : Type) := {
  chatRoomId : Z;
  message : string;
  senderType : string;
  senderId : option string;
  photos : list ChatPhoto
}.
Arguments chatRoomId {ChatPhoto} _.
Arguments message {ChatPhoto} _.
Arguments senderType {ChatPhoto} _.
Arguments senderId {ChatPhoto} _.
Arguments photos {ChatPhoto} _.

(** The code of each registered listener callback. *)
Class Listeners := { handler : Listener -> list Cmd }.

(** The rest of the environment: [JSON.stringify], kept symbolic; the answer
    of [GET /api/chat/room/${chatRoomId}]; the answer of
    [POST ${baseUrl}/upload], which is [response.data.fileUrl] or a rejection;
    and which of several rejected promises settles first (any choice is
    allowed). *)
Class Environment (ChatPhoto : Type) := {
  JSON_stringify : MessagePayload ChatPhoto -> string;
  axios_get : Z -> HttpResponse unit;
  axios_post : File -> Z -> HttpResponse string;
  race : list JsError -> nat
}.

(** ** WebSocketService: dispatch *)

Section ChatClient.

Context {L : Listeners} {ChatPhoto : Type} {E : Environment ChatPhoto}.

(** [try { listener(data) } catch (e) { console.error(...) }]. *)
Definition invoke (l : Listener) (data : Data) (w : World) : World :=
  run_cmds (handler l) (log_invoked [(l, data)] w).

(** [Array.prototype.forEach] over the array of [event]: the indices
    [0 .. len-1] for the length read at the start; at each index the callback
    runs only if the array, as it is at that moment, still has the index.
    The array of a key is never replaced once it exists, so reading it back
    through the key is reading the array the loop was started on. *)
Fixpoint forEach_loop (event : string) (data : Data) (ks : list nat) (w : World) : World :=
  match ks with
  | [] => w
  | k :: rest =>
      let w' := match listeners w !! event ≫= (λ arr, arr !! k) with
                | Some l => invoke l data w
                | None => w
                end in
      forEach_loop event data rest w'
  end.

(** [notifyListeners(event, data)]; it is private, and the service calls it
    with ['message'] and ['error'] only, two keys the registry has from the
    start. *)
Definition notifyListeners (event : string) (data : Data) (w : World) : World :=
  let w := log_dispatched (event, data) w in
  match listeners w !! event with
  | Some arr =>
      if bool_decide (0 < length arr)
      then forEach_loop event data (seq 0 (length arr)) w
      else w
  | None => w
  end.

(** ** WebSocketService: send pipeline *)

Definition CONNECTION_ERROR : Data :=
  ErrorInfo "CONNECTION_ERROR" "WebSocket 연결이 끊어졌습니다. 페이지를 새로고침해 주세요.".

Definition CHAT_ROOM_DELETED : Data :=
  ErrorInfo "CHAT_ROOM_DELETED" "삭제된 채팅방입니다.".

Definition photo_placeholder : string := "사진을 보냈습니다.".

(** [content || (photos.length > 0 ? '사진을 보냈습니다.' : '')]: a string is
    falsy exactly when it is empty. *)
Definition message_of (content : string) (photos : list ChatPhoto) : string :=
  if decide (content = "") then
    if bool_decide (0 < length photos) then photo_placeholder else ""
  else content.

(** [sendMessageWithPhotos(chatRoomId, content, senderType, photos = [])];
    [None] is the omitted argument. *)
Definition sendMessageWithPhotos (chatRoomId : Z) (content senderType : string)
    (photos : option (list ChatPhoto)) (w : World)
    : Outcome (MessagePayload ChatPhoto) * World :=
  let photos := default [] photos in
  match client w with
  | Some c =>
      if isConnected w then
        let w := log_http (GET_chat_room chatRoomId) w in
        let send :=
          let messagePayload :=
            {| chatRoomId := chatRoomId;
               message := message_of content photos;
               senderType := senderType;
               senderId := userId w;
               photos := photos |} in
          let frame :=
            {| destination := "/app/chat.sendMessage";
               body := JSON_stringify messagePayload;
               headers := [("content-type", "application/json")] |} in
          (Returns messagePayload, update_client c (publish frame) w) in
        match axios_get chatRoomId with
        | Resolved _ => send
        | Rejected status =>
            if decide (status = Some 404%Z)
            then (Throws (AxiosError status), notifyListeners "error" CHAT_ROOM_DELETED w)
            else send
        end
      else
        (Throws (Error "WebSocket is not connected"),
         notifyListeners "error" CONNECTION_ERROR w)
  | None =>
      (Throws (Error "WebSocket is not connected"),
       notifyListeners "error" CONNECTION_ERROR w)
  end.

(** [sendMessage(chatRoomId, content, senderType)]. *)
Definition sendMessage (chatRoomId : Z) (content senderType : string) (w : World)
    : Outcome (MessagePayload ChatPhoto) * World :=
  sendMessageWithPhotos chatRoomId content senderType (Some []) w.

(** ** AdminFileUploadService *)

Record UploadResult := {
  fileUrl : string;
  fileName : string;
  fileSize : Z
}.

(** [MAX_FILE_SIZE = 10 * 1024 * 1024]. *)
Definition MAX_FILE_SIZE : Z := 10 * 1024 * 1024.

Definition FILE_TOO_LARGE : JsError :=
  Error "파일 크기가 너무 큽니다. 최대 10MB까지 가능합니다.".

(** [uploadImage(file, chatRoomId)]; the [catch] logs and rethrows. *)
Definition uploadImage (file : File) (chatRoomId : Z) (w : World)
    : Outcome UploadResult * World :=
  if bool_decide (file_size file > MAX_FILE_SIZE)%Z then
    (Throws FILE_TOO_LARGE, w)
  else
    let w := log_http (POST_upload file chatRoomId) w in
    match axios_post file chatRoomId with
    | Resolved url =>
        (Returns {| fileUrl := url; fileName := file_name file; fileSize := file_size file |}, w)
    | Rejected status => (Throws (AxiosError status), w)
    end.

(** [files.map(file => this.uploadImage(file, chatRoomId))]: every call is
    started, in index order, whatever the others do. *)
Fixpoint map_uploadImage (files : list File) (chatRoomId : Z) (w : World)
    : list (Outcome UploadResult) * World :=
  match files with
  | [] => ([], w)
  | file :: rest =>
      let '(p, w) := uploadImage file chatRoomId w in
      let '(ps, w) := map_uploadImage rest chatRoomId w in
      (p :: ps, w)
  end.

Definition values {A} (ps : list (Outcome A)) : list A :=
  omap (λ p, match p with Returns a => Some a | Throws _ => None end) ps.

Definition rejections {A} (ps : list (Outcome A)) : list JsError :=
  omap (λ p, match p with Returns _ => None | Throws e => Some e end) ps.

(** [Promise.all]: the values in index order when every promise fulfils,
    otherwise the reason of the rejection that comes first. *)
Definition Promise_all {A} (ps : list (Outcome A)) : Outcome (list A) :=
  match rejections ps with
  | [] => Returns (values ps)
  | e :: es => Throws (nth (race (e :: es)) (e :: es) e)
  end.

(** [uploadMultipleImages(files, chatRoomId)]; the [catch] logs and rethrows. *)
Definition uploadMultipleImages (files : list File) (chatRoomId : Z) (w : World)
    : Outcome (list UploadResult) * World :=
  let '(uploadPromises, w) := map_uploadImage files chatRoomId w in
  (Promise_all uploadPromises, w).

(** ** Vocabulary of the statements *)

(** What neither the registry operations nor a dispatch pass touch. *)
Definition same_session (w w' : World) : Prop :=
  client w' = client w /\ userId w' = userId w /\ clients w' = clients w /\
  dispatched w' = dispatched w /\ http w' = http w.

(** A listener that does not touch the registry: it returns, or throws
    before any registry call. *)
Definition quiet_cmds (cs : list Cmd) : bool :=
  match cs with
  | [] | Raise :: _ => true
  | _ => false
  end.

Definition quiet (l : Listener) : Prop := quiet_cmds (handler l) = true.

(** The calls made to listeners between two worlds. *)
Definition calls_between (w w' : World) : list (Listener * Data) :=
  drop (length (invoked w)) (invoked w').

(** The pass behaves as if it ran on a snapshot, as far as listener [a] is
    concerned: [a] is called at most once, and every listener registered
    before the pass and still registered after it has been called. *)
Definition stable_pass (event : string) (data : Data) (w : World) (a : Listener) : Prop :=
  let w' := notifyListeners event data w in
  length (filter (λ e, e.1 = a) (calls_between w w')) <= 1 /\
  forall l,
    l ∈ default [] (listeners w !! event) ->
    l ∈ default [] (listeners w' !! event) ->
    (l, data) ∈ calls_between w w'.

Definition count_active (cs : list Client) : nat :=
  length (filter (λ cl, active cl = true) cs).

Definition b2n (b : bool) : nat := if b then 1 else 0.

(** Whether the client the service holds is active. *)
Definition current_active (w : World) : bool :=
  match client w ≫= (λ c, clients w !! c) with
  | Some cl => active cl
  | None => false
  end.

(** Every active client object is the one the service holds. *)
Definition owned (w : World) : Prop :=
  live_count w = b2n (current_active w).

Definition payload_of (chatRoomId : Z) (content senderType : string)
    (photos : list ChatPhoto) (w : World) : MessagePayload ChatPhoto :=
  {| chatRoomId := chatRoomId; message := message_of content photos;
     senderType := senderType; senderId := userId w; photos := photos |}.

Definition frame_of (p : MessagePayload ChatPhoto) : Frame :=
  {| destination := "/app/chat.sendMessage"; body := JSON_stringify p;
     headers := [("content-type", "application/json")] |}.

(** Between [w] and [w'] an error event with a code was dispatched, and the
    error listener registered first, if there is one, was called with it. *)
Definition reported_to_listeners (w w' : World) : Prop :=
  exists code msg,
    ("error", ErrorInfo code msg) ∈ drop (length (dispatched w)) (dispatched w') /\
    forall l arr,
      listeners w !! "error" = Some (l :: arr) ->
      (l, ErrorInfo code msg) ∈ calls_between w w'.

(** Between [w] and [w'] exactly one event was dispatched, [data], to the
    error listeners: the listener registered first was called with it
    whatever the listeners do, and when the registered error listeners return
    or throw without touching the registry, the calls made are exactly one
    call of each of them with [data], in registration order. *)
Definition dispatched_to_error_listeners (data : Data) (w w' : World) : Prop :=
  drop (length (dispatched w)) (dispatched w') = [("error", data)] /\
  (forall l arr,
     listeners w !! "error" = Some (l :: arr) ->
     exists rest, calls_between w w' = (l, data) :: rest) /\
  (forall arr,
     listeners w !! "error" = Some arr -> Forall quiet arr ->
     calls_between w w' = map (λ l, (l, data)) arr).

(** The call has thrown and the failure has been reported to the listeners. *)
Definition fails_on_both_channels {A} (r : Outcome A * World) (w : World) : Prop :=
  (exists e, r.1 = Throws e) /\ reported_to_listeners w r.2.

End ChatClient.

(** ** WebSocketService: the remaining methods and the close handler *)

(** [getCurrentUserId()]. *)
Definition getCurrentUserId (w : World) : option string := userId w.

(** What [onWebSocketClose] reads of the close event: [evt.code] and
    [evt.reason], which may be missing. *)
Record CloseEvent := { close_code : Z; close_reason : option string }.

(** [String.prototype.includes] for an ASCII needle: some suffix of [s]
    starts with [needle]. *)
Fixpoint includes (s needle : string) : bool :=
  String.prefix needle s
  || match s with
     | EmptyString => false
     | String _ rest => includes rest needle
     end.

Section CloseHandler.

Context {L : Listeners}.

(** [this.client.onWebSocketClose = (evt) => { if (evt.code === 1000 &&
    evt.reason?.includes('deleted')) this.notifyListeners('error', {code:
    'CHAT_ROOM_DELETED', ...}) }]. *)
Definition onWebSocketClose (evt : CloseEvent) (w : World) : World :=
  if bool_decide (close_code evt = 1000%Z)
     && from_option (λ r, includes r "deleted") false (close_reason evt)
  then notifyListeners "error" (ErrorInfo "CHAT_ROOM_DELETED" "삭제된 채팅방입니다.") w
  else w.

End CloseHandler.

(** ** NCPObjectStorageService (Java) *)

Inductive JavaResult (A : Type) :=
| Normal (a : A)
| Exception (e : string).
Arguments Normal {A} a.
Arguments Exception {A} e.

Record S3ObjectSummary := { getKey : string; getSize : Z }.

(** The calls made on the [AmazonS3] client. *)
Inductive S3Call :=
| ListObjects (bucket prefix : string)
| DeleteObjects (bucket : string) (keys : list string).

(** The storage the service talks to: [@Value("${ncp.bucket-name}")], and the
    answers of the [AmazonS3] client, namely the object summaries of the
    listing returned by [listObjects] and the completion of [deleteObjects]. *)
Class ObjectStorage := {
  bucketName : string;
  s3_listObjects : string -> string -> JavaResult (list S3ObjectSummary);
  s3_deleteObjects : string -> list string -> JavaResult unit
}.

(** [deleteFolder(prefix)]; exceptions of the client are not caught here. *)
Definition deleteFolder {S : ObjectStorage} (prefix : string) (calls : list S3Call)
    : JavaResult unit * list S3Call :=
  let calls := calls ++ [ListObjects bucketName prefix] in
  match s3_listObjects bucketName prefix with
  | Exception e => (Exception e, calls)
  | Normal summaries =>
      let keys := getKey <$> summaries in
      if bool_decide (keys <> []) then
        (s3_deleteObjects bucketName keys, calls ++ [DeleteObjects bucketName keys])
      else (Normal (), calls)
  end.

(** ** The object store behind the client

    The [AmazonS3] client is a library.  What [deleteFolder] relies on is
    modelled here: a bucket holds objects, which the service lists in a fixed
    order (by key); one [listObjects] call answers one page, the first
    [max_keys] objects whose key starts with the prefix (1000 on S3 and the
    stores compatible with it, unless the request says otherwise), further
    pages being fetched only by further calls; [deleteObjects] removes the
    objects that have one of the given keys. *)
Record Bucket := {
  bucket_id : string;
  objects : list S3ObjectSummary;
  max_keys : nat
}.

Definition under (prefix : string) (o : S3ObjectSummary) : Prop :=
  String.prefix prefix (getKey o) = true.

#[global] Instance under_dec prefix o : Decision (under prefix o) :=
  decide (String.prefix prefix (getKey o) = true).

Definition first_page (b : Bucket) (prefix : string) : list S3ObjectSummary :=
  take (max_keys b) (filter (under prefix) (objects b)).

(** The client of the service, connected to bucket [b]. *)
Definition client_of (b : Bucket) : ObjectStorage :=
  {| bucketName := bucket_id b;
     s3_listObjects := λ name prefix,
       if decide (name = bucket_id b) then Normal (first_page b prefix)
       else Exception "NoSuchBucket";
     s3_deleteObjects := λ name keys,
       if decide (name = bucket_id b) then Normal ()
       else Exception "NoSuchBucket" |}.

(** What a call of the client does to the bucket. *)
Definition after_call (b : Bucket) (c : S3Call) : Bucket :=
  match c with
  | ListObjects _ _ => b
  | DeleteObjects name keys =>
      if decide (name = bucket_id b)
      then {| bucket_id := bucket_id b;
              objects := filter (λ o, getKey o ∉ keys) (objects b);
              max_keys := max_keys b |}
      else b
  end.

Definition after_calls (b : Bucket) (calls : list S3Call) : Bucket :=
  foldl after_call b calls.

(** The bucket after [deleteFolder(prefix)]. *)
Definition after_deleteFolder (b : Bucket) (prefix : string) : Bucket :=
  after_calls b (deleteFolder (S := client_of b) prefix []).2.

(** [deleteFolder(prefix)] has deleted every key under the prefix. *)
Definition folder_deleted (b : Bucket) (prefix : string) : Prop :=
  filter (under prefix) (objects (after_deleteFolder b prefix)) = [].

(** ** NCPObjectStorageService: upload and download *)

(** The outcome of a method that wraps every fault of the client in a
    [StorageServiceException]. *)
Inductive StorageResult (A : Type) :=
| Done (a : A)
| StorageServiceException (cause : string).
Arguments Done {A} a.
Arguments StorageServiceException {A} cause.

Inductive CannedAccessControlList := Private | PublicRead.

(** The calls [upload] makes on the [AmazonS3] client: the put request with
    the content of [fileIn] and the content type of its metadata, and the
    call that sets the ACL. *)
Inductive UploadCall :=
| PutObject (bucket key : string) (content : list Byte.byte) (contentType : string)
| SetObjectAcl (bucket key : string) (acl : CannedAccessControlList).

(** One [read(bytesArray)] on the object's input stream: it delivers some
    bytes, or throws; the end of the list is the end of the stream (-1). *)
Inductive ReadAnswer :=
| ReadBytes (bs : list Byte.byte)
| ReadFails (e : string).

(** The answers of the client to [putObject], [setObjectAcl] and [getObject]
    (the reads that the returned stream will answer), of [fileOut.write]
    (given what this call has written so far and the chunk), and of the two
    [close()] calls. *)
Class ObjectClient := {
  s3_putObject : string -> string -> JavaResult unit;
  s3_setObjectAcl : string -> string -> JavaResult unit;
  s3_getObject : string -> string -> JavaResult (list ReadAnswer);
  out_write : list Byte.byte -> list Byte.byte -> JavaResult unit;
  in_close : JavaResult unit;
  out_close : JavaResult unit
}.

(** What [download] has done to its two streams. *)
Record Downloaded := {
  written : list Byte.byte;
  in_closed : bool;
  out_closed : bool
}.

Section ObjectTransfer.

Context {S : ObjectStorage} {C : ObjectClient}.

(** [upload(filePath, fileIn)]. *)
Definition upload (filePath : string) (fileIn : list Byte.byte) (calls : list UploadCall)
    : StorageResult unit * list UploadCall :=
  let calls := calls ++ [PutObject bucketName filePath fileIn "application/x-directory"] in
  match s3_putObject bucketName filePath with
  | Exception e => (StorageServiceException e, calls)
  | Normal _ =>
      let calls := calls ++ [SetObjectAcl bucketName filePath PublicRead] in
      match s3_setObjectAcl bucketName filePath with
      | Exception e => (StorageServiceException e, calls)
      | Normal _ => (Done (), calls)
      end
  end.

(** [while ((bytesRead = in.read(bytesArray)) != -1) fileOut.write(bytesArray,
    0, bytesRead)]: a read overwrites the front of the one buffer, and the
    write sends that front. *)
Fixpoint copy_loop (answers : list ReadAnswer) (bytesArray out : list Byte.byte)
    : JavaResult unit * list Byte.byte :=
  match answers with
  | [] => (Normal (), out)
  | ReadFails e :: _ => (Exception e, out)
  | ReadBytes bs :: rest =>
      let bytesRead := min (length bs) (length bytesArray) in
      let bytesArray := take bytesRead bs ++ drop bytesRead bytesArray in
      match out_write out (take bytesRead bytesArray) with
      | Exception e => (Exception e, out)
      | Normal _ => copy_loop rest bytesArray (out ++ take bytesRead bytesArray)
      end
  end.

(** [download(filePath, fileOut)]: [bytesArray = new byte[4096]]; the streams
    are closed at the end of the [try] block, not in a [finally]. *)
Definition download (filePath : string) : StorageResult unit * Downloaded :=
  match s3_getObject bucketName filePath with
  | Exception e =>
      (StorageServiceException e,
       {| written := []; in_closed := false; out_closed := false |})
  | Normal answers =>
      match copy_loop answers (replicate 4096 Byte.x00) [] with
      | (Exception e, out) =>
          (StorageServiceException e,
           {| written := out; in_closed := false; out_closed := false |})
      | (Normal _, out) =>
          match in_close with
          | Exception e =>
              (StorageServiceException e,
               {| written := out; in_closed := false; out_closed := false |})
          | Normal _ =>
              match out_close with
              | Exception e =>
                  (StorageServiceException e,
                   {| written := out; in_closed := true; out_closed := false |})
              | Normal _ =>
                  (Done (), {| written := out; in_closed := true; out_closed := true |})
              end
          end
      end
  end.

(** The chunks that the reads of a stream deliver. *)
Definition chunks_of (answers : list ReadAnswer) : list (list Byte.byte) :=
  omap (λ a, match a with ReadBytes bs => Some bs | ReadFails _ => None end) answers.

(** A read never delivers more than the buffer holds. *)
Definition fits_buffer (a : ReadAnswer) : Prop :=
  match a with
  | ReadBytes bs => length bs <= 4096
  | ReadFails _ => True
  end.

End ObjectTransfer.

(** ** Concrete runs *)

(** Listener 1 removes itself from the message listeners when called; the
    other listeners only return. *)
Definition self_removing : Listeners :=
  {| handler := λ l, if decide (l = 1) then [CallRemove "message" 1] else [] |}.

Definition returning : Listeners := {| handler := λ _, [] |}.

Definition hello : Data := Parsed "{}".

(** [addListener('message', 1); addListener('message', 2)] on the fresh
    singleton. *)
Definition two_listeners : World :=
  addListener "message" 2 (addListener "message" 1 initial_World).

Definition four_listeners : World :=
  addListener "message" 4 (addListener "message" 2
    (addListener "message" 1 (addListener "message" 3 initial_World))).

Definition reopen_after_connect : list Op :=
  [OpInitialize "u1"; EvConnected 0; OpInitialize "u1"; EvConnected 1; OpDisconnect].

(** A page where user u1 has a connected session and one error listener;
    room 13 has been deleted, the check of room 99 times out, every other
    room exists. *)
Definition connected_page : World :=
  addListener "error" 5 (run [OpInitialize "u1"; EvConnected 0] initial_World).

Definition listening_page : World := addListener "error" 5 initial_World.

Definition room_check : Z -> HttpResponse unit :=
  λ room, if decide (room = 13%Z) then Rejected (Some 404%Z)
          else if decide (room = 99%Z) then Rejected None
          else Resolved ().

Definition message_text (p : MessagePayload string) : string := message p.

(** The upload endpoint stores every file under a URL built from its name,
    except "broken.png", which the server refuses with status 500. *)
Definition upload_answer : File -> Z -> HttpResponse string :=
  λ file _, if decide (file_name file = "broken.png") then Rejected (Some 500%Z)
            else Resolved ("https://cdn.example/" +:+ file_name file).

Definition first_rejection : list JsError -> nat := λ _, 0.

Definition test_server : Environment string :=
  {| JSON_stringify := message_text; axios_get := room_check;
     axios_post := upload_answer; race := first_rejection |}.

Definition at_ceiling : File := {| file_name := "max.png"; file_size := 10485760 |}.
Definition above_ceiling : File := {| file_name := "big.png"; file_size := 10485761 |}.
Definition small : File := {| file_name := "cat.png"; file_size := 2048 |}.

(** A bucket in which nothing lies under "chat/7/" and two objects lie under
    "chat/8/". *)
Definition listing : string -> string -> JavaResult (list S3ObjectSummary) :=
  λ _ prefix, if decide (prefix = "chat/8/")
              then Normal [ {| getKey := "chat/8/a.png"; getSize := 10 |};
                            {| getKey := "chat/8/b.png"; getSize := 20 |} ]
              else Normal [].

Definition batch_delete : string -> list string -> JavaResult unit := λ _ _, Normal ().

Definition bucket : ObjectStorage :=
  {| bucketName := "imjm"; s3_listObjects := listing; s3_deleteObjects := batch_delete |}.

(** Listener 1 registers listener 9 for messages when called; listener 1
    removes listener 4; listener 2 throws. *)
Definition registering : Listeners :=
  {| handler := λ l, if decide (l = 1) then [CallAdd "message" 9] else [] |}.


Definition throwing : Listeners :=
  {| handler := λ l, if decide (l = 2) then [Raise] else [] |}.

(** The first client was replaced while it was still connecting. *)
Definition reopened_too_early : World :=
  run [OpInitialize "u1"; OpInitialize "u1"] initial_World.

(** An object store where "a.txt" is read in two chunks, the second read of
    "cut.txt" fails, and every other answer is normal. *)
Definition stored_reads : string -> string -> JavaResult (list ReadAnswer) :=
  λ _ key, if decide (key = "a.txt")
           then Normal [ReadBytes [Byte.x68; Byte.x65]; ReadBytes [Byte.x79]]
           else if decide (key = "cut.txt")
           then Normal [ReadBytes [Byte.x68]; ReadFails "connection reset"]
           else Exception "NoSuchKey".

Definition object_client : ObjectClient :=
  {| s3_putObject := λ _ _, Normal ();
     s3_setObjectAcl := λ _ _, Normal ();
     s3_getObject := stored_reads;
     out_write := λ _ _, Normal ();
     in_close := Normal ();
     out_close := Normal () |}.

(** A bucket with the page size of S3 and 1001 objects under "chat/8/". *)
Definition crowded_bucket : Bucket :=
  {| bucket_id := "imjm";
     objects := (λ n : nat, {| getKey := "chat/8/" +:+ pretty n; getSize := 1 |})
                <$> seq 0 1001;
     max_keys := 1000 |}.

Definition small_bucket : Bucket :=
  {| bucket_id := "imjm";
     objects := [ {| getKey := "chat/7/a.png"; getSize := 10 |};
                  {| getKey := "chat/8/a.png"; getSize := 10 |};
                  {| getKey := "chat/8/b.png"; getSize := 20 |};
                  {| getKey := "chat/9/a.png"; getSize := 30 |} ];
     max_keys := 1000 |}.

(** * Properties *)

Section ChatClientProperties.

Context {L : Listeners} {ChatPhoto : Type} {E : Environment ChatPhoto}.

(** ** Properties of the listener registry and of a dispatch pass *)

Lemma World_eq (w w' : World) :
  client w = client w' -> listeners w = listeners w' -> userId w = userId w' ->
  clients w = clients w' -> dispatched w = dispatched w' ->
  invoked w = invoked w' -> http w = http w' -> w = w'.
Proof.
  destruct w, w'; simpl; intros; subst; reflexivity.
Qed.

Lemma same_session_refl w : same_session w w.
Proof. repeat split. Qed.

Lemma same_session_trans w1 w2 w3 :
  same_session w1 w2 -> same_session w2 w3 -> same_session w1 w3.
Proof.
  unfold same_session. intros (?&?&?&?&?) (?&?&?&?&?).
  repeat split; congruence.
Qed.

Lemma addListener_same_session event l w : same_session w (addListener event l w).
Proof.
  unfold addListener.
  destruct (listeners w !! event); [repeat split|].
  destruct (inherited event); repeat split.
Qed.

Lemma addListener_invoked event l w : invoked (addListener event l w) = invoked w.
Proof.
  unfold addListener.
  destruct (listeners w !! event); [reflexivity|].
  destruct (inherited event); reflexivity.
Qed.

Lemma registered_does_not_throw event w arr :
  listeners w !! event = Some arr -> throws_TypeError event w = false.
Proof. unfold throws_TypeError. intros ->. reflexivity. Qed.

Lemma addListener_registered event l w arr :
  listeners w !! event = Some arr ->
  addListener event l w = set_listeners (<[event := arr ++ [l]]> (listeners w)) w.
Proof. unfold addListener. intros ->. reflexivity. Qed.

Lemma removeListener_same_session event l w : same_session w (removeListener event l w).
Proof.
  unfold removeListener.
  destruct (listeners w !! event) as [arr|]; [|apply same_session_refl].
  destruct (indexOf arr l); repeat split.
Qed.

Lemma removeListener_invoked event l w : invoked (removeListener event l w) = invoked w.
Proof.
  unfold removeListener.
  destruct (listeners w !! event) as [arr|]; [|reflexivity].
  destruct (indexOf arr l); reflexivity.
Qed.

Lemma run_cmds_same_session cs : forall w, same_session w (run_cmds cs w).
Proof.
  induction cs as [|[event l|event l|] cs IH]; intros w; simpl.
  - apply same_session_refl.
  - destruct (throws_TypeError event w); [apply same_session_refl|].
    eapply same_session_trans; [apply addListener_same_session | apply IH].
  - destruct (throws_TypeError event w); [apply same_session_refl|].
    eapply same_session_trans; [apply removeListener_same_session | apply IH].
  - apply same_session_refl.
Qed.

Lemma run_cmds_invoked cs : forall w, invoked (run_cmds cs w) = invoked w.
Proof.
  induction cs as [|[event l|event l|] cs IH]; intros w; simpl; try reflexivity.
  - destruct (throws_TypeError event w); [reflexivity|].
    rewrite IH. apply addListener_invoked.
  - destruct (throws_TypeError event w); [reflexivity|].
    rewrite IH. apply removeListener_invoked.
Qed.

Lemma invoke_same_session l data w : same_session w (invoke l data w).
Proof.
  unfold invoke.
  eapply same_session_trans; [|apply run_cmds_same_session]. repeat split.
Qed.

Lemma forEach_loop_same_session event data ks :
  forall w, same_session w (forEach_loop event data ks w).
Proof.
  induction ks as [|k ks IH]; intros w; simpl.
  - apply same_session_refl.
  - destruct (listeners w !! event ≫= _) as [l|]; [|apply IH].
    eapply same_session_trans; [apply invoke_same_session | apply IH].
Qed.

(** A dispatch pass leaves the clients, their outboxes and the HTTP trace
    alone, and is recorded once. *)
Lemma notifyListeners_session event data w :
  let w' := notifyListeners event data w in
  client w' = client w /\ userId w' = userId w /\ clients w' = clients w /\
  http w' = http w /\ dispatched w' = dispatched w ++ [(event, data)].
Proof.
  unfold notifyListeners. cbn zeta.
  set (w1 := log_dispatched (event, data) w).
  assert (H : same_session w1
    (match listeners w1 !! event with
     | Some arr => if bool_decide (0 < length arr)
                   then forEach_loop event data (seq 0 (length arr)) w1 else w1
     | None => w1
     end)).
  { destruct (listeners w1 !! event) as [arr|]; [|apply same_session_refl].
    destruct (bool_decide (0 < length arr));
      [apply forEach_loop_same_session | apply same_session_refl]. }
  destruct H as (?&?&?&?&?). subst w1. simpl in *. repeat split; congruence.
Qed.

Lemma log_invoked_nil w : log_invoked [] w = w.
Proof. apply World_eq; simpl; auto using app_nil_r. Qed.

Lemma log_invoked_app es1 es2 w :
  log_invoked es2 (log_invoked es1 w) = log_invoked (es1 ++ es2) w.
Proof. apply World_eq; simpl; auto using app_assoc. Qed.

Lemma invoke_quiet l data w : quiet l -> invoke l data w = log_invoked [(l, data)] w.
Proof.
  unfold quiet, invoke. destruct (handler l) as [|[| |] cs]; simpl; congruence.
Qed.

(** Over quiet listeners the loop calls exactly the listeners found at the
    visited indices, in order, and the registry stays as it is. *)
Lemma forEach_loop_quiet event data arr ks :
  forall w,
    listeners w !! event = Some arr ->
    Forall quiet (omap (λ k, arr !! k) ks) ->
    forEach_loop event data ks w
    = log_invoked (map (λ l, (l, data)) (omap (λ k, arr !! k) ks)) w.
Proof.
  induction ks as [|k ks IH]; intros w Hreg Hq; simpl.
  - symmetry. apply log_invoked_nil.
  - rewrite Hreg. simpl in *. destruct (arr !! k) as [l|]; simpl.
    + inversion Hq as [|? ? Hl Hrest]; subst.
      rewrite invoke_quiet by exact Hl.
      rewrite IH by (simpl; assumption).
      apply log_invoked_app.
    + apply IH; assumption.
Qed.

(** The elements met by walking the indices [i, i+1, ..., i+n-1] of a list. *)
Lemma omap_lookup_seq {A} (l : list A) n :
  forall i, omap (λ k, l !! k) (seq i n) = take n (drop i l).
Proof.
  induction n as [|n IH]; intros i; simpl.
  - rewrite take_0. reflexivity.
  - rewrite IH. destruct (l !! i) as [x|] eqn:Hi.
    + rewrite (drop_S l x i Hi). reflexivity.
    + apply lookup_ge_None in Hi.
      rewrite !drop_ge by lia. rewrite !take_nil. reflexivity.
Qed.

Lemma notifyListeners_quiet event data w arr :
  listeners w !! event = Some arr ->
  Forall quiet arr ->
  notifyListeners event data w
  = log_invoked (map (λ l, (l, data)) arr) (log_dispatched (event, data) w).
Proof.
  intros Hreg Hq. unfold notifyListeners. cbn zeta.
  change (listeners (log_dispatched (event, data) w)) with (listeners w).
  rewrite Hreg. case_bool_decide as Hlen.
  - rewrite (forEach_loop_quiet event data arr) by
      (try exact Hreg; rewrite omap_lookup_seq, drop_0, firstn_all; exact Hq).
    rewrite omap_lookup_seq, drop_0, firstn_all. reflexivity.
  - destruct arr; [|simpl in Hlen; lia]. symmetry. apply log_invoked_nil.
Qed.

Lemma indexOf_app_fresh pre a post :
  a ∉ pre -> indexOf (pre ++ a :: post) a = Some (length pre).
Proof.
  induction pre as [|x pre IH]; intros Hfresh; simpl.
  - rewrite decide_True by reflexivity. reflexivity.
  - apply not_elem_of_cons in Hfresh as [Hne Hfresh].
    rewrite decide_False by congruence. rewrite IH by exact Hfresh. reflexivity.
Qed.

Lemma delete_middle {A} (pre : list A) a post :
  delete (length pre) (pre ++ a :: post) = pre ++ post.
Proof. induction pre as [|x pre IH]; simpl; [reflexivity | f_equal; exact IH]. Qed.

Lemma forEach_loop_app event data ks1 ks2 :
  forall w,
    forEach_loop event data (ks1 ++ ks2) w
    = forEach_loop event data ks2 (forEach_loop event data ks1 w).
Proof.
  induction ks1 as [|k ks1 IH]; intros w; simpl; [reflexivity | apply IH].
Qed.

(** The pass in which [a], found between the quiet listeners [pre] and
    [post], splices itself out of the array. *)
Lemma self_removal_pass event data w pre a post :
  listeners w !! event = Some (pre ++ a :: post) ->
  handler a = [CallRemove event a] ->
  Forall quiet pre ->
  Forall quiet post ->
  let w' := notifyListeners event data w in
  invoked w' = invoked w ++ map (λ l, (l, data)) (pre ++ a :: drop 1 post) /\
  listeners w' !! event = Some (pre ++ post).
Proof.
  intros Hreg Ha Hpre Hpost.
  assert (Hfresh : a ∉ pre).
  { intros Hin. rewrite Forall_forall in Hpre. specialize (Hpre a Hin).
    unfold quiet in Hpre. rewrite Ha in Hpre. discriminate. }
  unfold notifyListeners. cbn zeta.
  set (w0 := log_dispatched (event, data) w).
  assert (Hreg0 : listeners w0 !! event = Some (pre ++ a :: post)) by exact Hreg.
  rewrite Hreg0. rewrite bool_decide_true by (rewrite length_app; simpl; lia).
  rewrite length_app. simpl length.
  replace (seq 0 (length pre + S (length post)))
    with (seq 0 (length pre) ++ length pre :: seq (S (length pre)) (length post))
    by (rewrite seq_app; reflexivity).
  rewrite forEach_loop_app.
  (* the listeners before [a] *)
  rewrite (forEach_loop_quiet event data (pre ++ a :: post) _ w0 Hreg0);
    rewrite omap_lookup_seq, drop_0, take_app_length; [|exact Hpre].
  set (w1 := log_invoked (map (λ l, (l, data)) pre) w0).
  (* [a] itself: it is found at its index and splices itself out *)
  cbn [forEach_loop].
  change (listeners w1) with (listeners w0). rewrite Hreg0. cbn [mbind option_bind].
  rewrite list_lookup_middle by reflexivity.
  unfold invoke. rewrite Ha. cbn [run_cmds].
  rewrite (registered_does_not_throw event _ (pre ++ a :: post)) by exact Hreg0.
  unfold removeListener.
  change (listeners (log_invoked [(a, data)] w1)) with (listeners w0).
  rewrite Hreg0, (indexOf_app_fresh pre a post Hfresh), delete_middle.
  set (w2 := set_listeners _ _).
  assert (Hreg2 : listeners w2 !! event = Some (pre ++ post))
    by (subst w2; simpl; apply lookup_insert_eq).
  (* the listeners after [a], one slot to the left *)
  assert (Hrest : omap (λ k, (pre ++ post) !! k) (seq (S (length pre)) (length post))
                  = drop 1 post).
  { rewrite omap_lookup_seq.
    replace (S (length pre)) with (length pre + 1) by lia.
    rewrite drop_app_add'; [|reflexivity].
    apply take_ge. rewrite length_drop. lia. }
  rewrite (forEach_loop_quiet event data (pre ++ post) _ w2 Hreg2);
    rewrite Hrest; [|apply Forall_drop; exact Hpost].
  split; [|exact Hreg2].
  subst w2 w1 w0. simpl. rewrite map_app. simpl. rewrite <- !app_assoc. reflexivity.
Qed.

Lemma filter_calls_absent (a : Listener) (data : Data) (ls : list Listener) :
  a ∉ ls -> filter (λ e : Listener * Data, e.1 = a) (map (λ l, (l, data)) ls) = [].
Proof.
  induction ls as [|l ls IH]; intros Habs; simpl; [reflexivity|].
  apply not_elem_of_cons in Habs as [Hne Habs].
  rewrite filter_cons. simpl. rewrite decide_False by congruence.
  apply IH. exact Habs.
Qed.

(** C1 (as the code has it).  A dispatch pass walks the live array by index,
    with the length read at the start; it does not run on a snapshot.  When
    listener [a], registered once for the event, between the registrations
    [pre] and [post] of listeners that return or throw without touching the
    registry, removes itself during its own call: the listeners of [pre] are
    called in order, then [a], which is called exactly once in the pass, then
    the listeners of [post] except the first one, which has moved into the
    slot of [a] and is passed over although it is still registered; the
    registry ends as [pre ++ post]. *)
Theorem self_removal_skips_next event data w pre a post :
  listeners w !! event = Some (pre ++ a :: post) ->
  a ∉ pre ++ post ->
  handler a = [CallRemove event a] ->
  Forall quiet pre ->
  Forall quiet post ->
  let w' := notifyListeners event data w in
  invoked w' = invoked w ++ map (λ l, (l, data)) (pre ++ a :: drop 1 post) /\
  listeners w' !! event = Some (pre ++ post) /\
  length (filter (λ e, e.1 = a) (calls_between w w')) = 1.
Proof.
  intros Hreg Honce Ha Hpre Hpost.
  destruct (self_removal_pass event data w pre a post Hreg Ha Hpre Hpost)
    as [Hinv Hafter].
  cbn zeta. split; [exact Hinv|]. split; [exact Hafter|].
  unfold calls_between. rewrite Hinv, drop_app_length.
  apply not_elem_of_app in Honce as [Hnpre Hnpost].
  rewrite map_app, filter_app. simpl. rewrite filter_cons. simpl.
  rewrite decide_True by reflexivity.
  rewrite (filter_calls_absent a data pre Hnpre).
  rewrite (filter_calls_absent a data (drop 1 post)).
  - reflexivity.
  - intros Hin. apply Hnpost. exact (subseteq_drop 1 post a Hin).
Qed.

(** ** Properties of the session handle *)

Lemma count_active_cons cl cs :
  count_active (cl :: cs) = b2n (active cl) + count_active cs.
Proof.
  unfold count_active. rewrite filter_cons.
  destruct (active cl); simpl; reflexivity.
Qed.

Lemma count_active_app cs1 cs2 :
  count_active (cs1 ++ cs2) = count_active cs1 + count_active cs2.
Proof. unfold count_active. rewrite filter_app, length_app. reflexivity. Qed.

Lemma count_active_alter f cs :
  forall i old,
    cs !! i = Some old ->
    count_active (alter f i cs) + b2n (active old)
    = count_active cs + b2n (active (f old)).
Proof.
  induction cs as [|cl cs IH]; intros [|i] old Hi; simpl in Hi; try discriminate.
  - injection Hi as ->. simpl. rewrite !count_active_cons. lia.
  - change (alter f (S i) (cl :: cs)) with (cl :: alter f i cs).
    rewrite !count_active_cons. specialize (IH i old Hi). lia.
Qed.

Lemma list_alter_ge {A} (f : A -> A) (l : list A) :
  forall i, length l <= i -> alter f i l = l.
Proof.
  induction l as [|x l IH]; intros [|i] Hi; try reflexivity.
  - simpl in Hi. lia.
  - change (alter f (S i) (x :: l)) with (x :: alter f i l).
    rewrite IH by (simpl in Hi; lia). reflexivity.
Qed.

Lemma owned_initial : owned initial_World.
Proof. reflexivity. Qed.

Lemma disconnect_owned w :
  owned w -> owned (disconnect w) /\ live_count (disconnect w) = 0 /\ client (disconnect w) = None.
Proof.
  unfold owned, disconnect, live_count, current_active.
  destruct (client w) as [c|] eqn:Hc; simpl.
  - fold (count_active (clients w)). fold (count_active (alter deactivate c (clients w))).
    destruct (clients w !! c) as [cl|] eqn:Hcl; intros Hown.
    + pose proof (count_active_alter deactivate (clients w) c cl Hcl) as H.
      simpl in H. repeat split; lia.
    + rewrite list_alter_ge by (apply lookup_ge_None; exact Hcl).
      simpl in Hown. repeat split; exact Hown.
  - rewrite Hc. simpl. intros Hown. repeat split; exact Hown.
Qed.

(** An update of one client that keeps its [active] flag keeps [owned]. *)
Lemma update_client_owned c f w :
  (forall cl, active (f cl) = active cl) ->
  owned w -> owned (update_client c f w).
Proof.
  intros Hf. unfold owned, live_count, current_active, update_client. simpl.
  fold (count_active (clients w)). fold (count_active (alter f c (clients w))).
  intros Hown.
  assert (Hcount : count_active (alter f c (clients w)) = count_active (clients w)).
  { destruct (clients w !! c) as [cl|] eqn:Hcl.
    - pose proof (count_active_alter f (clients w) c cl Hcl) as H.
      rewrite Hf in H. lia.
    - rewrite list_alter_ge by (apply lookup_ge_None; exact Hcl). reflexivity. }
  rewrite Hcount, Hown. f_equal.
  destruct (client w) as [c'|]; simpl; [|reflexivity].
  destruct (decide (c = c')) as [->|Hne].
  - rewrite list_lookup_alter_eq. destruct (clients w !! c'); simpl; [symmetry; apply Hf | reflexivity].
  - rewrite list_lookup_alter_ne by exact Hne. reflexivity.
Qed.

(** After the guard of [initialize], the new client is appended, held by the
    service, and active. *)
Lemma initialize_clients uid w :
  let w2 := if isConnected w then disconnect (set_userId (Some uid) w)
            else set_userId (Some uid) w in
  clients (initialize uid w) = clients w2 ++ [activate new_Client] /\
  client (initialize uid w) = Some (length (clients w2)).
Proof.
  unfold initialize. cbn zeta.
  change (isConnected (set_userId (Some uid) w)) with (isConnected w).
  destruct (isConnected w); simpl; split; try reflexivity.
  - destruct (client w); simpl;
      rewrite alter_app_r_alt by lia; rewrite Nat.sub_diag; reflexivity.
  - rewrite alter_app_r_alt by lia. rewrite Nat.sub_diag. reflexivity.
Qed.

Lemma initialize_owned uid w :
  match client w with Some _ => isConnected w | None => true end = true ->
  owned w ->
  owned (initialize uid w) /\ live_count (initialize uid w) = 1.
Proof.
  intros Hguard Hown.
  destruct (initialize_clients uid w) as [Hcs Hc].
  set (w2 := if isConnected w then disconnect (set_userId (Some uid) w)
             else set_userId (Some uid) w) in *.
  assert (H0 : live_count w2 = 0).
  { subst w2. destruct (isConnected w) eqn:Hconn.
    - apply (disconnect_owned (set_userId (Some uid) w)). exact Hown.
    - destruct (client w) eqn:Hcl; [discriminate|].
      unfold owned, current_active in Hown. rewrite Hcl in Hown. exact Hown. }
  assert (H1 : live_count (initialize uid w) = 1).
  { unfold live_count in *. rewrite Hcs.
    fold (count_active (clients w2 ++ [activate new_Client])).
    fold (count_active (clients w2)) in H0.
    rewrite count_active_app, H0. reflexivity. }
  split; [|exact H1].
  unfold owned, current_active. rewrite H1, Hc, Hcs. simpl.
  rewrite lookup_app_r by lia. rewrite Nat.sub_diag. reflexivity.
Qed.

Lemma step_owned o w :
  match o with
  | OpInitialize _ => match client w with Some _ => isConnected w | None => true end
  | _ => true
  end = true ->
  owned w -> owned (step o w).
Proof.
  destruct o as [uid| |c|c]; simpl; intros Hguard Hown.
  - apply initialize_owned; assumption.
  - apply disconnect_owned; assumption.
  - apply update_client_owned; [|assumption].
    intros cl. destruct (active cl) eqn:Hact; simpl; exact Hact.
  - apply update_client_owned; [|assumption]. reflexivity.
Qed.

Lemma run_owned ops :
  forall w, timely ops w = true -> owned w -> owned (run ops w).
Proof.
  induction ops as [|o ops IH]; intros w Ht Hown; simpl in *; [exact Hown|].
  apply andb_true_iff in Ht as [Hguard Ht].
  apply IH; [exact Ht | apply step_owned; assumption].
Qed.

Lemma timely_take ops :
  forall n w, timely ops w = true -> timely (take n ops) w = true.
Proof.
  induction ops as [|o ops IH]; intros [|n] w Ht; simpl in *; try reflexivity.
  apply andb_true_iff in Ht as [Hguard Ht].
  rewrite Hguard. simpl. apply IH. exact Ht.
Qed.

Lemma owned_at_most_one w : owned w -> live_count w <= 1.
Proof. unfold owned. intros ->. destruct (current_active w); simpl; lia. Qed.

(** C2 (as the code has it).  [initialize] tears the existing client down
    only when it is connected.  In every run of service calls and transport
    events in which each [initialize] finds the service without a client or
    with a connected one, at most one session is live at every instant; and
    an [initialize] that finds a connected client deactivates it, then
    creates, stores and activates the new one. *)
Theorem one_live_session_when_connected_before_open ops n :
  timely ops initial_World = true ->
  live_count (run (take n ops) initial_World) <= 1 /\
  forall uid w c cl,
    client w = Some c -> clients w !! c = Some cl -> connected cl = true ->
    clients (initialize uid w) !! c = Some (deactivate cl) /\
    client (initialize uid w) = Some (length (clients w)) /\
    clients (initialize uid w) !! length (clients w) = Some (activate new_Client).
Proof.
  intros Ht. split.
  - apply owned_at_most_one, run_owned; [|apply owned_initial].
    apply timely_take. exact Ht.
  - intros uid w c cl Hc Hcl Hconn.
    destruct (initialize_clients uid w) as [Hcs Hcur].
    assert (Hisc : isConnected w = true)
      by (unfold isConnected; rewrite Hc; simpl; rewrite Hcl; exact Hconn).
    assert (Hdis : clients (disconnect (set_userId (Some uid) w))
                   = alter deactivate c (clients w))
      by (unfold disconnect; simpl; rewrite Hc; reflexivity).
    rewrite Hisc, Hdis in Hcs. rewrite Hisc, Hdis, length_alter in Hcur.
    assert (Hlt : c < length (clients w)) by (eapply lookup_lt_Some; exact Hcl).
    rewrite Hcs, Hcur. repeat split.
    + rewrite lookup_app_l by (rewrite length_alter; exact Hlt).
      rewrite list_lookup_alter_eq, Hcl. reflexivity.
    + rewrite lookup_app_r by (rewrite length_alter; lia).
      rewrite length_alter, Nat.sub_diag. reflexivity.
Qed.

(** ** Properties of the send pipeline *)

(** The three ways through [sendMessageWithPhotos]. *)
Lemma send_not_connected chatRoomId content senderType photos w :
  isConnected w = false ->
  sendMessageWithPhotos chatRoomId content senderType photos w
  = (Throws (Error "WebSocket is not connected"),
     notifyListeners "error" CONNECTION_ERROR w).
Proof.
  intros Hconn. unfold sendMessageWithPhotos.
  destruct (client w); [rewrite Hconn|]; reflexivity.
Qed.

Lemma send_room_deleted chatRoomId content senderType photos w :
  isConnected w = true ->
  axios_get chatRoomId = Rejected (Some 404%Z) ->
  sendMessageWithPhotos chatRoomId content senderType photos w
  = (Throws (AxiosError (Some 404%Z)),
     notifyListeners "error" CHAT_ROOM_DELETED (log_http (GET_chat_room chatRoomId) w)).
Proof.
  intros Hconn Hget. unfold sendMessageWithPhotos.
  destruct (client w) as [c|] eqn:Hc.
  - rewrite Hconn, Hget. rewrite decide_True by reflexivity. reflexivity.
  - unfold isConnected in Hconn. rewrite Hc in Hconn. discriminate.
Qed.

Lemma send_published chatRoomId content senderType photos w c :
  client w = Some c ->
  isConnected w = true ->
  axios_get chatRoomId <> Rejected (Some 404%Z) ->
  sendMessageWithPhotos chatRoomId content senderType photos w
  = (Returns (payload_of chatRoomId content senderType (default [] photos) w),
     update_client c
       (publish (frame_of (payload_of chatRoomId content senderType (default [] photos) w)))
       (log_http (GET_chat_room chatRoomId) w)).
Proof.
  intros Hc Hconn Hget. unfold sendMessageWithPhotos. rewrite Hc, Hconn.
  destruct (axios_get chatRoomId) as [[]|status]; [reflexivity|].
  rewrite decide_False by congruence. reflexivity.
Qed.

Lemma isConnected_client w :
  isConnected w = true ->
  exists c cl, client w = Some c /\ clients w !! c = Some cl /\ connected cl = true.
Proof.
  unfold isConnected. destruct (client w) as [c|]; simpl; [|discriminate].
  destruct (clients w !! c) as [cl|] eqn:Hcl; [|discriminate].
  intros Hconn. exists c, cl. auto.
Qed.

(** What the listeners see of one dispatched event when they are quiet. *)
Lemma notifyListeners_invoked_quiet event data w arr :
  listeners w !! event = Some arr ->
  Forall quiet arr ->
  invoked (notifyListeners event data w) = invoked w ++ map (λ l, (l, data)) arr.
Proof.
  intros Hreg Hq. rewrite (notifyListeners_quiet event data w arr Hreg Hq). reflexivity.
Qed.

(** C4.  A send without a live session (no client, or a client that is not
    connected) throws, dispatches one error event with code CONNECTION_ERROR
    to the error listeners, issues no HTTP request and publishes nothing. *)
Theorem send_without_session_is_connection_error chatRoomId content senderType photos w :
  isConnected w = false ->
  let r := sendMessageWithPhotos chatRoomId content senderType photos w in
  r.1 = Throws (Error "WebSocket is not connected") /\
  r.2 = notifyListeners "error" CONNECTION_ERROR w /\
  CONNECTION_ERROR = ErrorInfo "CONNECTION_ERROR"
                       "WebSocket 연결이 끊어졌습니다. 페이지를 새로고침해 주세요." /\
  dispatched r.2 = dispatched w ++ [("error", CONNECTION_ERROR)] /\
  clients r.2 = clients w /\
  http r.2 = http w /\
  forall arr,
    listeners w !! "error" = Some arr -> Forall quiet arr ->
    invoked r.2 = invoked w ++ map (λ l, (l, CONNECTION_ERROR)) arr.
Proof.
  intros Hconn. cbn zeta. rewrite send_not_connected by exact Hconn. simpl.
  destruct (notifyListeners_session "error" CONNECTION_ERROR w) as (_ & _ & Hcs & Hhttp & Hd).
  repeat split; try assumption.
  intros arr Hreg Hq. apply notifyListeners_invoked_quiet; assumption.
Qed.

(** C3.  With a connected session: a 404 from the existence check throws,
    dispatches one CHAT_ROOM_DELETED error event and publishes nothing; any
    other rejection of the check is passed over and the message is published
    on the session's client. *)
Theorem send_blocked_only_by_404 chatRoomId content senderType photos w :
  isConnected w = true ->
  let r := sendMessageWithPhotos chatRoomId content senderType photos w in
  (axios_get chatRoomId = Rejected (Some 404%Z) ->
     r.1 = Throws (AxiosError (Some 404%Z)) /\
     dispatched r.2 = dispatched w ++ [("error", CHAT_ROOM_DELETED)] /\
     CHAT_ROOM_DELETED = ErrorInfo "CHAT_ROOM_DELETED" "삭제된 채팅방입니다." /\
     clients r.2 = clients w /\
     forall arr,
       listeners w !! "error" = Some arr -> Forall quiet arr ->
       invoked r.2 = invoked w ++ map (λ l, (l, CHAT_ROOM_DELETED)) arr) /\
  (forall status,
     axios_get chatRoomId = Rejected status -> status <> Some 404%Z ->
     exists c cl p,
       client w = Some c /\ clients w !! c = Some cl /\
       p = payload_of chatRoomId content senderType (default [] photos) w /\
       r.1 = Returns p /\
       clients r.2 !! c = Some (publish (frame_of p) cl) /\
       outbox (publish (frame_of p) cl) = outbox cl ++ [frame_of p] /\
       dispatched r.2 = dispatched w).
Proof.
  intros Hconn. cbn zeta. split.
  - intros Hget. rewrite send_room_deleted by assumption. simpl.
    set (w1 := log_http (GET_chat_room chatRoomId) w).
    destruct (notifyListeners_session "error" CHAT_ROOM_DELETED w1)
      as (_ & _ & Hcs & _ & Hd).
    repeat split; try assumption.
    intros arr Hreg Hq.
    apply (notifyListeners_invoked_quiet "error" CHAT_ROOM_DELETED w1 arr); assumption.
  - intros status Hget Hne.
    destruct (isConnected_client w Hconn) as (c & cl & Hc & Hcl & _).
    exists c, cl, (payload_of chatRoomId content senderType (default [] photos) w).
    rewrite (send_published chatRoomId content senderType photos w c Hc Hconn)
      by (rewrite Hget; congruence).
    simpl. repeat split; try assumption.
    rewrite list_lookup_alter_eq, Hcl. reflexivity.
Qed.

Lemma message_of_cases content (photos : list ChatPhoto) :
  (content = "" -> photos <> [] -> message_of content photos = photo_placeholder) /\
  (content = "" -> photos = [] -> message_of content photos = "") /\
  (content <> "" -> message_of content photos = content).
Proof.
  unfold message_of. repeat split.
  - intros -> Hne. rewrite decide_True by reflexivity.
    destruct photos; [congruence|]. reflexivity.
  - intros -> ->. reflexivity.
  - intros Hne. rewrite decide_False by exact Hne. reflexivity.
Qed.

(** C6.  A send that reaches assembly (connected session, existence check
    not answered 404) returns the envelope and publishes its serialisation to
    /app/chat.sendMessage; the envelope's message is the photo placeholder
    for an empty body with attachments, the empty string for an empty body
    without attachments, and the body itself otherwise. *)
Theorem send_body_defaulting chatRoomId content senderType (attachments : list ChatPhoto) w c cl :
  client w = Some c ->
  clients w !! c = Some cl ->
  connected cl = true ->
  axios_get chatRoomId <> Rejected (Some 404%Z) ->
  let r := sendMessageWithPhotos chatRoomId content senderType (Some attachments) w in
  exists p,
    r.1 = Returns p /\
    clients r.2 !! c
    = Some (publish {| destination := "/app/chat.sendMessage";
                       body := JSON_stringify p;
                       headers := [("content-type", "application/json")] |} cl) /\
    photos p = attachments /\
    (content = "" -> attachments <> [] -> message p = "사진을 보냈습니다.") /\
    (content = "" -> attachments = [] -> message p = "") /\
    (content <> "" -> message p = content).
Proof.
  intros Hc Hcl Hconn Hget. cbn zeta.
  assert (Hisc : isConnected w = true)
    by (unfold isConnected; rewrite Hc; simpl; rewrite Hcl; exact Hconn).
  rewrite (send_published chatRoomId content senderType (Some attachments) w c Hc Hisc Hget).
  exists (payload_of chatRoomId content senderType attachments w). simpl.
  split; [reflexivity|]. split.
  - rewrite list_lookup_alter_eq, Hcl. reflexivity.
  - split; [reflexivity|]. apply message_of_cases.
Qed.

(** C10.  [sendMessage] is [sendMessageWithPhotos] with an empty attachment
    list (given explicitly or left to the default): same outcome, same world
    afterwards, hence same dispatched events and same published frame; a
    returned envelope carries the body unchanged and no attachment. *)
Theorem sendMessage_is_send_without_photos room content sender w :
  sendMessage room content sender w
  = sendMessageWithPhotos room content sender (Some []) w /\
  sendMessage room content sender w
  = sendMessageWithPhotos room content sender None w /\
  forall p,
    (sendMessage room content sender w).1 = Returns p ->
    message p = content /\ photos p = [] /\
    chatRoomId p = room /\ senderType p = sender /\ senderId p = userId w.
Proof.
  split; [reflexivity|]. split; [reflexivity|].
  intros p. unfold sendMessage, sendMessageWithPhotos.
  assert (Hmsg : message_of content (@nil ChatPhoto) = content).
  { unfold message_of. destruct (decide (content = "")) as [->|]; reflexivity. }
  destruct (client w) as [c|]; [|discriminate].
  destruct (isConnected w); [|discriminate].
  destruct (axios_get room) as [[]|status]; simpl.
  - intros [= <-]. simpl. rewrite Hmsg. auto.
  - destruct (decide (status = Some 404%Z)); [discriminate|].
    intros [= <-]. simpl. rewrite Hmsg. auto.
Qed.

(** ** Properties of the upload service *)

Lemma uploadImage_too_large file chatRoomId w :
  (file_size file > MAX_FILE_SIZE)%Z ->
  uploadImage file chatRoomId w = (Throws FILE_TOO_LARGE, w).
Proof. intros H. unfold uploadImage. rewrite bool_decide_true by exact H. reflexivity. Qed.

Lemma uploadImage_within_limit file chatRoomId w :
  (file_size file <= MAX_FILE_SIZE)%Z ->
  uploadImage file chatRoomId w
  = (match axios_post file chatRoomId with
     | Resolved url =>
         Returns {| fileUrl := url; fileName := file_name file; fileSize := file_size file |}
     | Rejected status => Throws (AxiosError status)
     end,
     log_http (POST_upload file chatRoomId) w).
Proof.
  intros H. unfold uploadImage. rewrite bool_decide_false by lia.
  destruct (axios_post file chatRoomId); reflexivity.
Qed.

(** The listeners are out of reach of the upload service. *)
Lemma uploadImage_silent file chatRoomId w :
  let w' := (uploadImage file chatRoomId w).2 in
  dispatched w' = dispatched w /\ invoked w' = invoked w /\
  listeners w' = listeners w /\ clients w' = clients w.
Proof.
  unfold uploadImage. case_bool_decide; [repeat split|].
  destruct (axios_post file chatRoomId); repeat split.
Qed.

(** C7.  [uploadImage] throws the size error exactly when [file.size] is
    strictly above 10 * 1024 * 1024, and then sends nothing to the backend; at
    or below the ceiling (10 * 1024 * 1024 itself included) the POST is
    issued and its answer decides the outcome. *)
Theorem uploadImage_size_ceiling file chatRoomId w :
  ((uploadImage file chatRoomId w).1 = Throws FILE_TOO_LARGE
   <-> (file_size file > 10 * 1024 * 1024)%Z) /\
  ((file_size file > 10 * 1024 * 1024)%Z -> (uploadImage file chatRoomId w).2 = w) /\
  ((file_size file <= 10 * 1024 * 1024)%Z ->
     http (uploadImage file chatRoomId w).2 = http w ++ [POST_upload file chatRoomId] /\
     (uploadImage file chatRoomId w).1
     = match axios_post file chatRoomId with
       | Resolved url =>
           Returns {| fileUrl := url; fileName := file_name file; fileSize := file_size file |}
       | Rejected status => Throws (AxiosError status)
       end).
Proof.
  change (10 * 1024 * 1024)%Z with MAX_FILE_SIZE.
  destruct (decide (file_size file > MAX_FILE_SIZE)%Z) as [Hbig|Hok].
  - rewrite uploadImage_too_large by exact Hbig. simpl.
    split; [split; [intros _; exact Hbig | reflexivity]|].
    split; [reflexivity|]. intros Hle. lia.
  - assert (Hle : (file_size file <= MAX_FILE_SIZE)%Z) by lia.
    rewrite uploadImage_within_limit by exact Hle. simpl.
    split; [split; [|intros Hbig; contradiction]|].
    + destruct (axios_post file chatRoomId); discriminate.
    + split; [intros Hbig; contradiction|]. intros _. split; reflexivity.
Qed.

(** The outcome of a single upload does not depend on the world it starts
    in. *)
Lemma uploadImage_outcome file chatRoomId w w' :
  (uploadImage file chatRoomId w).1 = (uploadImage file chatRoomId w').1.
Proof.
  unfold uploadImage. case_bool_decide; [reflexivity|].
  destruct (axios_post file chatRoomId); reflexivity.
Qed.

Lemma map_uploadImage_outcomes files chatRoomId w0 :
  forall w,
    (map_uploadImage files chatRoomId w).1
    = (λ file, (uploadImage file chatRoomId w0).1) <$> files.
Proof.
  induction files as [|file files IH]; intros w; simpl; [reflexivity|].
  destruct (uploadImage file chatRoomId w) as [p w1] eqn:Hp.
  specialize (IH w1).
  destruct (map_uploadImage files chatRoomId w1) as [ps w2]. simpl in *.
  rewrite IH. f_equal.
  rewrite (uploadImage_outcome file chatRoomId w0 w), Hp. reflexivity.
Qed.

Lemma uploadMultipleImages_outcome files chatRoomId w :
  (uploadMultipleImages files chatRoomId w).1
  = Promise_all ((λ file, (uploadImage file chatRoomId w).1) <$> files).
Proof.
  unfold uploadMultipleImages.
  pose proof (map_uploadImage_outcomes files chatRoomId w w) as H.
  destruct (map_uploadImage files chatRoomId w) as [ps w']. simpl in *.
  rewrite H. reflexivity.
Qed.

Lemma Promise_all_fulfilled {A} (ps : list (Outcome A)) (vs : list A) :
  Forall2 (λ p v, p = Returns v) ps vs -> Promise_all ps = Returns vs.
Proof.
  intros H. unfold Promise_all.
  assert (Hr : rejections ps = [] /\ values ps = vs).
  { induction H as [|p v ps vs Hp _ [IHr IHv]]; [split; reflexivity|].
    subst p.
    change (rejections (Returns v :: ps)) with (rejections ps).
    change (values (Returns v :: ps)) with (v :: values ps).
    rewrite IHr, IHv. split; reflexivity. }
  destruct Hr as [-> ->]. reflexivity.
Qed.

Lemma Promise_all_rejected {A} (ps : list (Outcome A)) e :
  Throws e ∈ ps -> exists e', Promise_all ps = Throws e' /\ Throws e' ∈ ps.
Proof.
  intros Hin. unfold Promise_all.
  assert (Hsub : forall x, x ∈ rejections ps -> Throws x ∈ ps).
  { intros x. unfold rejections. rewrite list_elem_of_omap.
    intros ([a|y] & Hy & Heq); [discriminate|]. congruence. }
  assert (He : e ∈ rejections ps).
  { unfold rejections. rewrite list_elem_of_omap. exists (Throws e). auto. }
  destruct (rejections ps) as [|e0 es]; [inversion He|].
  eexists. split; [reflexivity|].
  apply Hsub.
  destruct (nth_in_or_default (race (e0 :: es)) (e0 :: es) e0) as [Hnth| ->].
  - apply list_elem_of_In. exact Hnth.
  - left.
Qed.

Lemma Promise_all_returns {A} (ps : list (Outcome A)) (vs : list A) :
  Promise_all ps = Returns vs -> Forall2 (λ p v, p = Returns v) ps vs.
Proof.
  unfold Promise_all. destruct (rejections ps) eqn:Hr; [|discriminate].
  intros [= <-]. clear -Hr.
  induction ps as [|[a|e] ps IH].
  - constructor.
  - change (values (Returns a :: ps)) with (a :: values ps).
    constructor; [reflexivity | apply IH; exact Hr].
  - discriminate.
Qed.

(** C8.  [uploadMultipleImages] is all-or-nothing and keeps the order: when
    every single upload succeeds it returns their results, one per file, in
    the order of the files; when one of them fails, the call throws (the
    reason of one of the failed uploads) and returns no list; and a returned
    list always pairs file [i] with result [i]. *)
Theorem uploadMultipleImages_all_or_nothing files chatRoomId w :
  (forall refs,
     Forall2 (λ file r, (uploadImage file chatRoomId w).1 = Returns r) files refs ->
     (uploadMultipleImages files chatRoomId w).1 = Returns refs) /\
  (forall file e,
     file ∈ files -> (uploadImage file chatRoomId w).1 = Throws e ->
     exists e', (uploadMultipleImages files chatRoomId w).1 = Throws e' /\
                exists file', file' ∈ files /\
                              (uploadImage file' chatRoomId w).1 = Throws e') /\
  (forall refs,
     (uploadMultipleImages files chatRoomId w).1 = Returns refs ->
     Forall2 (λ file r, (uploadImage file chatRoomId w).1 = Returns r /\
                        fileName r = file_name file /\ fileSize r = file_size file)
             files refs).
Proof.
  rewrite uploadMultipleImages_outcome. repeat split.
  - intros refs H. apply Promise_all_fulfilled.
    apply Forall2_fmap_l. exact H.
  - intros file e Hin He.
    destruct (Promise_all_rejected
                ((λ file, (uploadImage file chatRoomId w).1) <$> files) e)
      as (e' & Hall & Hin').
    { rewrite <- He. apply list_elem_of_fmap. exists file. auto. }
    exists e'. split; [exact Hall|].
    apply list_elem_of_fmap in Hin' as (file' & Heq & Hf'). eauto.
  - intros refs H. apply Promise_all_returns in H.
    apply Forall2_fmap_l in H.
    eapply Forall2_impl; [exact H|].
    intros file r Hr. unfold compose in Hr. cbv beta in Hr. split; [exact Hr|].
    destruct (decide (file_size file > MAX_FILE_SIZE)%Z) as [Hbig|Hok].
    + rewrite uploadImage_too_large in Hr by exact Hbig. discriminate.
    + rewrite uploadImage_within_limit in Hr by lia.
      destruct (axios_post file chatRoomId); [|discriminate].
      simpl in Hr. injection Hr as <-. split; reflexivity.
Qed.

(** ** Failure reporting *)

Lemma forEach_loop_invoked_grows event data ks :
  forall w, exists es, invoked (forEach_loop event data ks w) = invoked w ++ es.
Proof.
  induction ks as [|k ks IH]; intros w; simpl.
  - exists []. rewrite app_nil_r. reflexivity.
  - destruct (listeners w !! event ≫= _) as [l|]; [|apply IH].
    destruct (IH (invoke l data w)) as [es Hes]. rewrite Hes.
    unfold invoke. rewrite run_cmds_invoked. simpl.
    exists ((l, data) :: es). rewrite <- app_assoc. reflexivity.
Qed.

(** Whatever the listeners do, the one registered first is called. *)
Lemma notifyListeners_first_listener event data w l arr :
  listeners w !! event = Some (l :: arr) ->
  exists es, invoked (notifyListeners event data w) = invoked w ++ (l, data) :: es.
Proof.
  intros Hreg. unfold notifyListeners. cbn zeta.
  change (listeners (log_dispatched (event, data) w)) with (listeners w).
  rewrite Hreg. rewrite bool_decide_true by (simpl; lia).
  simpl length. cbn [seq forEach_loop].
  change (listeners (log_dispatched (event, data) w)) with (listeners w).
  rewrite Hreg. cbn [mbind option_bind lookup list_lookup].
  destruct (forEach_loop_invoked_grows event data (seq 1 (length arr))
              (invoke l data (log_dispatched (event, data) w))) as [es Hes].
  rewrite Hes. unfold invoke. rewrite run_cmds_invoked. simpl.
  exists es. rewrite <- app_assoc. reflexivity.
Qed.

Lemma notifyListeners_reported code msg w0 w :
  listeners w0 = listeners w -> dispatched w0 = dispatched w -> invoked w0 = invoked w ->
  reported_to_listeners w (notifyListeners "error" (ErrorInfo code msg) w0).
Proof.
  intros Hl Hd Hi. exists code, msg. split.
  - destruct (notifyListeners_session "error" (ErrorInfo code msg) w0) as (_&_&_&_&H).
    rewrite H, Hd, drop_app_length. left.
  - intros l arr Hreg. rewrite <- Hl in Hreg.
    destruct (notifyListeners_first_listener "error" (ErrorInfo code msg) w0 l arr Hreg)
      as [es Hes].
    unfold calls_between. rewrite Hes, Hi, drop_app_length. left.
Qed.

Lemma notifyListeners_dispatched_to data w0 w :
  listeners w0 = listeners w -> dispatched w0 = dispatched w -> invoked w0 = invoked w ->
  dispatched_to_error_listeners data w (notifyListeners "error" data w0).
Proof.
  intros Hl Hd Hi. split; [|split].
  - destruct (notifyListeners_session "error" data w0) as (_&_&_&_&H).
    rewrite H, Hd, drop_app_length. reflexivity.
  - intros l arr Hreg. rewrite <- Hl in Hreg.
    destruct (notifyListeners_first_listener "error" data w0 l arr Hreg) as [es Hes].
    exists es. unfold calls_between. rewrite Hes, Hi, drop_app_length. reflexivity.
  - intros arr Hreg Hq. rewrite <- Hl in Hreg.
    unfold calls_between.
    rewrite (notifyListeners_invoked_quiet "error" data w0 arr Hreg Hq), Hi.
    apply drop_app_length.
Qed.

(** C5 (as the code has it).  The validation failures of the send pipeline
    throw and run one dispatch pass over the error listeners: without a live
    session the call throws the not-connected Error and the event is the one
    with code CONNECTION_ERROR; with an existence check answered 404 the call
    rethrows the 404 and the event is the one with code CHAT_ROOM_DELETED.
    The first registered error listener is called with the event in any
    case, and all of them, once each and in order, when they leave the
    registry alone.  The validation failure of the upload service (file above
    the ceiling) only throws: no event is dispatched and no listener is
    called. *)
Theorem validation_failures_reported chatRoomId content senderType photos file w :
  (isConnected w = false ->
     let r := sendMessageWithPhotos chatRoomId content senderType photos w in
     r.1 = Throws (Error "WebSocket is not connected") /\
     r.2 = notifyListeners "error" CONNECTION_ERROR w /\
     dispatched_to_error_listeners CONNECTION_ERROR w r.2 /\
     fails_on_both_channels r w) /\
  (isConnected w = true -> axios_get chatRoomId = Rejected (Some 404%Z) ->
     let r := sendMessageWithPhotos chatRoomId content senderType photos w in
     r.1 = Throws (AxiosError (Some 404%Z)) /\
     r.2 = notifyListeners "error" CHAT_ROOM_DELETED
             (log_http (GET_chat_room chatRoomId) w) /\
     dispatched_to_error_listeners CHAT_ROOM_DELETED w r.2 /\
     fails_on_both_channels r w) /\
  ((file_size file > MAX_FILE_SIZE)%Z ->
     (uploadImage file chatRoomId w).1 = Throws FILE_TOO_LARGE /\
     (uploadImage file chatRoomId w).2 = w /\
     dispatched (uploadImage file chatRoomId w).2 = dispatched w /\
     invoked (uploadImage file chatRoomId w).2 = invoked w).
Proof.
  split; [|split].
  - intros Hconn. cbn zeta. rewrite send_not_connected by exact Hconn.
    cbn [fst snd].
    split; [reflexivity|]. split; [reflexivity|].
    split; [apply notifyListeners_dispatched_to; reflexivity|].
    split; [eexists; reflexivity|].
    apply notifyListeners_reported; reflexivity.
  - intros Hconn Hget. cbn zeta. rewrite send_room_deleted by assumption.
    cbn [fst snd].
    split; [reflexivity|]. split; [reflexivity|].
    split; [apply notifyListeners_dispatched_to; reflexivity|].
    split; [eexists; reflexivity|].
    apply notifyListeners_reported; reflexivity.
  - intros Hbig. rewrite uploadImage_too_large by exact Hbig. cbn [fst snd].
    repeat split.
Qed.

End ChatClientProperties.

(** ** Further properties of the listener registry *)

Section RegistryProperties.

Context {L : Listeners}.

Lemma indexOf_absent arr x : x ∉ arr -> indexOf arr x = None.
Proof.
  induction arr as [|y arr IH]; intros Hx; simpl; [reflexivity|].
  apply not_elem_of_cons in Hx as [Hne Hx].
  rewrite decide_False by congruence. rewrite IH by exact Hx. reflexivity.
Qed.

Lemma elem_of_first_occurrence (arr : list Listener) x :
  x ∈ arr -> exists pre post, arr = pre ++ x :: post /\ x ∉ pre.
Proof.
  induction arr as [|y arr IH]; intros Hx; [inversion Hx|].
  destruct (decide (y = x)) as [->|Hne].
  - exists [], arr. split; [reflexivity | apply not_elem_of_nil].
  - apply elem_of_cons in Hx as [Heq|Hx]; [congruence|].
    destruct (IH Hx) as (pre & post & -> & Hpre).
    exists (y :: pre), post. split; [reflexivity|].
    apply not_elem_of_cons. split; [congruence | exact Hpre].
Qed.

(** X1.  [removeListener] of a callback that is not registered for the event, the
    event being known or not, changes nothing. *)
Theorem removeListener_absent_is_noop event callback w :
  callback ∉ default [] (listeners w !! event) ->
  removeListener event callback w = w.
Proof.
  intros Habs. unfold removeListener.
  destruct (listeners w !! event) as [arr|]; [|reflexivity].
  simpl in Habs. rewrite indexOf_absent by exact Habs. reflexivity.
Qed.

(** X2.  [removeListener] of a registered callback takes out its first
    registration only and keeps the order of the others; a callback
    registered twice is still registered once afterwards. *)
Theorem removeListener_removes_first_registration event callback w arr :
  listeners w !! event = Some arr ->
  callback ∈ arr ->
  exists pre post,
    arr = pre ++ callback :: post /\ (callback ∉ pre) /\
    removeListener event callback w
    = set_listeners (<[event := pre ++ post]> (listeners w)) w /\
    (callback ∈ post ->
     callback ∈ default [] (listeners (removeListener event callback w) !! event)).
Proof.
  intros Hreg Hin.
  destruct (elem_of_first_occurrence arr callback Hin) as (pre & post & -> & Hpre).
  exists pre, post. split; [reflexivity|]. split; [exact Hpre|].
  assert (Hrm : removeListener event callback w
                = set_listeners (<[event := pre ++ post]> (listeners w)) w).
  { unfold removeListener.
    rewrite Hreg, (indexOf_app_fresh pre callback post Hpre), delete_middle.
    reflexivity. }
  split; [exact Hrm|].
  intros Hpost. rewrite Hrm. simpl. rewrite lookup_insert_eq. simpl.
  apply elem_of_app. right. exact Hpost.
Qed.

(** X3.  Registering a callback that was not registered and removing it again
    gives back the registry: the array of the event is as before (a key that
    was missing now holds the empty array), and a world whose key existed is
    unchanged.  For the name of an inherited member that the registry has no
    key for, both calls throw and nothing changes at all. *)
Theorem addListener_then_removeListener event callback w :
  callback ∉ default [] (listeners w !! event) ->
  (throws_TypeError event w = false ->
   removeListener event callback (addListener event callback w)
   = set_listeners (<[event := default [] (listeners w !! event)]> (listeners w)) w) /\
  (is_Some (listeners w !! event) ->
   removeListener event callback (addListener event callback w) = w) /\
  (throws_TypeError event w = true ->
   listeners w !! event = None /\
   addListener event callback w = w /\ removeListener event callback w = w).
Proof.
  intros Habs.
  assert (Hrm : throws_TypeError event w = false ->
                removeListener event callback (addListener event callback w)
                = set_listeners
                    (<[event := default [] (listeners w !! event)]> (listeners w)) w).
  { unfold throws_TypeError, removeListener, addListener.
    destruct (listeners w !! event) as [arr|] eqn:Hreg; simpl in Habs |- *.
    - intros _. simpl. rewrite lookup_insert_eq.
      rewrite (indexOf_app_fresh arr callback [] Habs), delete_middle, app_nil_r.
      unfold set_listeners. simpl. rewrite insert_insert_eq. reflexivity.
    - intros ->. simpl. rewrite lookup_insert_eq. simpl.
      rewrite decide_True by reflexivity. simpl.
      unfold set_listeners. simpl. rewrite insert_insert_eq. reflexivity. }
  split; [exact Hrm|]. split.
  - intros [arr Harr].
    rewrite Hrm by (apply (registered_does_not_throw event w arr Harr)).
    rewrite Harr. simpl.
    apply World_eq; simpl; try reflexivity.
    apply insert_id. exact Harr.
  - unfold throws_TypeError, addListener, removeListener.
    destruct (listeners w !! event); [discriminate|].
    intros ->. repeat split.
Qed.

Lemma addListeners_registered event news :
  forall w arr,
    listeners w !! event = Some arr ->
    let w' := foldl (λ w l, addListener event l w) w news in
    listeners w' !! event = Some (arr ++ news) /\ invoked w' = invoked w.
Proof.
  induction news as [|l news IH]; intros w arr Hreg; simpl.
  - rewrite app_nil_r. split; [exact Hreg | reflexivity].
  - destruct (IH (addListener event l w) (arr ++ [l])) as [Hl Hi].
    { rewrite (addListener_registered event l w arr Hreg). simpl.
      apply lookup_insert_eq. }
    rewrite <- app_assoc in Hl. rewrite addListener_invoked in Hi.
    split; [exact Hl | exact Hi].
Qed.

(** X4.  Listeners are notified in the order of their registration: after
    [addListener] calls for [news] on an event that already has [arr], a pass
    calls the listeners of [arr ++ news] once each, in this order, as long as
    each of them returns or throws without touching the registry.  A listener
    that throws does not keep the later ones from being called. *)
Theorem notification_follows_registration_order event data w arr news :
  listeners w !! event = Some arr ->
  Forall quiet (arr ++ news) ->
  invoked (notifyListeners event data (foldl (λ w l, addListener event l w) w news))
  = invoked w ++ map (λ l, (l, data)) (arr ++ news).
Proof.
  intros Hreg Hq.
  destruct (addListeners_registered event news w arr Hreg) as [Hl Hi].
  rewrite (notifyListeners_quiet event data _ (arr ++ news) Hl Hq). simpl.
  rewrite Hi. reflexivity.
Qed.

(** X5.  A listener registered from inside a listener during a pass is not called
    in that pass: the loop stops at the length read when it started.  Every
    listener registered before the pass is called once, in order, and the new
    one ends up last in the registry. *)
Theorem listener_added_during_pass_waits event data w pre a post b :
  listeners w !! event = Some (pre ++ a :: post) ->
  handler a = [CallAdd event b] ->
  Forall quiet pre ->
  Forall quiet post ->
  let w' := notifyListeners event data w in
  invoked w' = invoked w ++ map (λ l, (l, data)) (pre ++ a :: post) /\
  listeners w' !! event = Some (pre ++ a :: post ++ [b]).
Proof.
  intros Hreg Ha Hpre Hpost.
  unfold notifyListeners. cbn zeta.
  set (w0 := log_dispatched (event, data) w).
  assert (Hreg0 : listeners w0 !! event = Some (pre ++ a :: post)) by exact Hreg.
  rewrite Hreg0. rewrite bool_decide_true by (rewrite length_app; simpl; lia).
  rewrite length_app. simpl length.
  replace (seq 0 (length pre + S (length post)))
    with (seq 0 (length pre) ++ length pre :: seq (S (length pre)) (length post))
    by (rewrite seq_app; reflexivity).
  rewrite forEach_loop_app.
  rewrite (forEach_loop_quiet event data (pre ++ a :: post) _ w0 Hreg0);
    rewrite omap_lookup_seq, drop_0, take_app_length; [|exact Hpre].
  set (w1 := log_invoked (map (λ l, (l, data)) pre) w0).
  cbn [forEach_loop].
  change (listeners w1) with (listeners w0). rewrite Hreg0. cbn [mbind option_bind].
  rewrite list_lookup_middle by reflexivity.
  unfold invoke. rewrite Ha. cbn [run_cmds].
  rewrite (registered_does_not_throw event _ (pre ++ a :: post)) by exact Hreg0.
  rewrite (addListener_registered event b _ (pre ++ a :: post)) by exact Hreg0.
  change (listeners (log_invoked [(a, data)] w1)) with (listeners w0).
  set (w2 := set_listeners _ _).
  assert (Hreg2 : listeners w2 !! event = Some ((pre ++ a :: post) ++ [b]))
    by (subst w2; simpl; apply lookup_insert_eq).
  assert (Hrest : omap (λ k, ((pre ++ a :: post) ++ [b]) !! k)
                    (seq (S (length pre)) (length post))
                  = post).
  { rewrite omap_lookup_seq.
    rewrite <- app_assoc. simpl.
    replace (S (length pre)) with (length pre + 1) by lia.
    rewrite drop_app_add'; [|reflexivity]. simpl. rewrite drop_0.
    apply take_app_length. }
  rewrite (forEach_loop_quiet event data _ _ w2 Hreg2);
    rewrite Hrest; [|exact Hpost].
  split.
  - subst w2 w1 w0. simpl. rewrite map_app. simpl. rewrite <- !app_assoc. reflexivity.
  - rewrite <- app_assoc in Hreg2. exact Hreg2.
Qed.


End RegistryProperties.

(** ** Further properties of the session handle *)

Section SessionProperties.

Context {L : Listeners} {ChatPhoto : Type} {E : Environment ChatPhoto}.

Lemma initialize_userId uid w : userId (initialize uid w) = Some uid.
Proof.
  unfold initialize. cbn zeta.
  destruct (isConnected (set_userId (Some uid) w)); [|reflexivity].
  unfold disconnect. destruct (client (set_userId (Some uid) w)); reflexivity.
Qed.

Lemma initialize_not_connected uid w : isConnected (initialize uid w) = false.
Proof.
  destruct (initialize_clients uid w) as [Hcs Hc].
  unfold isConnected. rewrite Hc, Hcs. simpl.
  rewrite lookup_app_r by lia. rewrite Nat.sub_diag. reflexivity.
Qed.

(** X7.  [disconnect] is idempotent, keeps the user id, and leaves the service in
    a state where [isConnected()] is false and a send throws without
    publishing. *)
Theorem disconnect_then_send_fails chatRoomId content senderType photos w :
  let w' := disconnect w in
  disconnect w' = w' /\
  isConnected w' = false /\
  getCurrentUserId w' = getCurrentUserId w /\
  (sendMessageWithPhotos chatRoomId content senderType photos w').1
  = Throws (Error "WebSocket is not connected") /\
  clients (sendMessageWithPhotos chatRoomId content senderType photos w').2 = clients w'.
Proof.
  cbn zeta.
  assert (Hnone : client (disconnect w) = None).
  { unfold disconnect. destruct (client w) eqn:Hc; [reflexivity | exact Hc]. }
  assert (Hconn : isConnected (disconnect w) = false).
  { unfold isConnected. rewrite Hnone. reflexivity. }
  split; [unfold disconnect at 1; rewrite Hnone; reflexivity|].
  split; [exact Hconn|].
  split; [unfold disconnect; destruct (client w); reflexivity|].
  rewrite send_not_connected by exact Hconn. simpl.
  split; [reflexivity|].
  apply (notifyListeners_session "error" CONNECTION_ERROR (disconnect w)).
Qed.

(** X8.  Right after [initialize(uid)] the service holds a fresh, activated client
    that is not connected: [isConnected()] is false and a send throws, until
    the transport acknowledges the connection of that client. *)
Theorem initialize_then_send_waits_for_connect uid chatRoomId content senderType photos w :
  let w' := initialize uid w in
  isConnected w' = false /\
  getCurrentUserId w' = Some uid /\
  (sendMessageWithPhotos chatRoomId content senderType photos w').1
  = Throws (Error "WebSocket is not connected") /\
  exists c,
    client w' = Some c /\ clients w' !! c = Some (activate new_Client) /\
    isConnected (transport_connected c w') = true.
Proof.
  cbn zeta.
  pose proof (initialize_not_connected uid w) as Hconn.
  split; [exact Hconn|]. split; [apply initialize_userId|].
  split; [rewrite send_not_connected by exact Hconn; reflexivity|].
  destruct (initialize_clients uid w) as [Hcs Hc].
  set (w2 := if isConnected w then disconnect (set_userId (Some uid) w)
             else set_userId (Some uid) w) in *.
  assert (Hat : clients (initialize uid w) !! length (clients w2)
                = Some (activate new_Client)).
  { rewrite Hcs. rewrite lookup_app_r by lia. rewrite Nat.sub_diag. reflexivity. }
  exists (length (clients w2)). split; [exact Hc|]. split; [exact Hat|].
  unfold isConnected.
  change (client (transport_connected (length (clients w2)) (initialize uid w)))
    with (client (initialize uid w)).
  change (clients (transport_connected (length (clients w2)) (initialize uid w)))
    with (alter (λ cl, if active cl then set_connected true cl else cl)
            (length (clients w2)) (clients (initialize uid w))).
  rewrite Hc. cbn [mbind option_bind].
  rewrite list_lookup_alter_eq, Hat. reflexivity.
Qed.

Lemma step_userId o w :
  (forall uid, o <> OpInitialize uid) -> userId (step o w) = userId w.
Proof.
  destruct o as [uid| |c|c]; intros Hno; simpl.
  - exfalso. apply (Hno uid). reflexivity.
  - unfold disconnect. destruct (client w); reflexivity.
  - reflexivity.
  - reflexivity.
Qed.

(** X9.  [getCurrentUserId()] is the argument of the latest [initialize]:
    [disconnect] and the transport events that follow do not change it. *)
Theorem getCurrentUserId_is_latest_initialize before uid after w :
  Forall (λ o, forall u, o <> OpInitialize u) after ->
  getCurrentUserId (run (before ++ OpInitialize uid :: after) w) = Some uid.
Proof.
  intros Hafter. unfold run, getCurrentUserId.
  rewrite foldl_app. simpl.
  set (w1 := initialize uid _).
  assert (H1 : userId w1 = Some uid) by apply initialize_userId.
  clearbody w1. revert w1 H1.
  induction Hafter as [|o after Ho _ IH]; intros w1 H1; simpl; [exact H1|].
  apply IH. rewrite step_userId by exact Ho. exact H1.
Qed.

(** X10.  A client object that is active and is no longer the one the service
    holds stays active whatever is called afterwards: no service call and no
    transport event deactivates it. *)
Theorem replaced_client_is_never_deactivated ops :
  forall w c cl,
    clients w !! c = Some cl -> active cl = true -> client w <> Some c ->
    exists cl', clients (run ops w) !! c = Some cl' /\ active cl' = true.
Proof.
  induction ops as [|o ops IH]; intros w c cl Hcl Hact Hcur; simpl.
  - exists cl. auto.
  - assert (Hlt : c < length (clients w)) by (eapply lookup_lt_Some; exact Hcl).
    assert (Hstep : exists cl1, clients (step o w) !! c = Some cl1 /\
                                active cl1 = true /\ client (step o w) <> Some c).
    { destruct o as [uid| |c'|c']; cbn [step].
      - destruct (initialize_clients uid w) as [Hcs Hc].
        set (w2 := if isConnected w then disconnect (set_userId (Some uid) w)
                   else set_userId (Some uid) w) in *.
        assert (H2 : clients w2 !! c = Some cl).
        { subst w2. destruct (isConnected w); [|exact Hcl].
          unfold disconnect. simpl. destruct (client w) as [c0|] eqn:Hc0; [|exact Hcl].
          simpl. rewrite list_lookup_alter_ne by congruence. exact Hcl. }
        assert (Hlt2 : c < length (clients w2)) by (eapply lookup_lt_Some; exact H2).
        exists cl. rewrite Hcs, Hc. rewrite lookup_app_l by exact Hlt2.
        split; [exact H2|]. split; [exact Hact|]. intros [= Heq]. lia.
      - unfold disconnect. destruct (client w) as [c0|] eqn:Hc0.
        + exists cl. simpl. rewrite list_lookup_alter_ne by congruence. auto.
        + exists cl. rewrite Hc0. auto.
      - unfold transport_connected, update_client. simpl.
        destruct (decide (c' = c)) as [->|Hne].
        + rewrite list_lookup_alter_eq, Hcl. simpl. rewrite Hact.
          eexists. split; [reflexivity|]. split; [exact Hact | exact Hcur].
        + exists cl. rewrite list_lookup_alter_ne by exact Hne. auto.
      - unfold transport_closed, update_client. simpl.
        destruct (decide (c' = c)) as [->|Hne].
        + rewrite list_lookup_alter_eq, Hcl. simpl.
          eexists. split; [reflexivity|]. split; [exact Hact | exact Hcur].
        + exists cl. rewrite list_lookup_alter_ne by exact Hne. auto. }
    destruct Hstep as (cl1 & Hcl1 & Hact1 & Hcur1).
    exact (IH (step o w) c cl1 Hcl1 Hact1 Hcur1).
Qed.

Lemma initialize_while_not_connected uid w :
  isConnected w = false -> live_count (initialize uid w) = S (live_count w).
Proof.
  intros Hconn. destruct (initialize_clients uid w) as [Hcs _].
  rewrite Hconn in Hcs. unfold live_count. rewrite Hcs.
  change (clients (set_userId (Some uid) w)) with (clients w).
  fold (count_active (clients w ++ [activate new_Client])).
  fold (count_active (clients w)).
  rewrite count_active_app. change (count_active [activate new_Client]) with 1. lia.
Qed.

(** X11.  Every [initialize] called while the service is not connected adds a live
    session and tears none down: [initialize] calls in a row leave as many
    more live sessions as there were calls. *)
Theorem opens_in_a_row_pile_up uids :
  forall w,
    isConnected w = false ->
    live_count (run (OpInitialize <$> uids) w) = live_count w + length uids.
Proof.
  induction uids as [|uid uids IH]; intros w Hconn; simpl; [lia|].
  change (foldl (λ w o, step o w) (initialize uid w) (OpInitialize <$> uids))
    with (run (OpInitialize <$> uids) (initialize uid w)).
  rewrite IH by apply initialize_not_connected.
  rewrite initialize_while_not_connected by exact Hconn. lia.
Qed.

End SessionProperties.

(** ** Further properties of the send pipeline, the close handler and the
    upload service *)

Section PipelineProperties.

Context {L : Listeners} {ChatPhoto : Type} {E : Environment ChatPhoto}.

(** X12.  A send asks for the existence of the room exactly once when the session
    is connected, whatever the answer, and not at all when it is not. *)
Theorem send_checks_room_once_when_connected room content sender photos w :
  http (sendMessageWithPhotos room content sender photos w).2
  = http w ++ (if isConnected w then [GET_chat_room room] else []).
Proof.
  destruct (isConnected w) eqn:Hconn.
  - destruct (isConnected_client w Hconn) as (c & cl & Hc & _ & _).
    destruct (axios_get room) as [[]|status] eqn:Hget.
    + rewrite (send_published room content sender photos w c Hc Hconn)
        by (rewrite Hget; discriminate).
      reflexivity.
    + destruct (decide (status = Some 404%Z)) as [->|Hne].
      * rewrite send_room_deleted by assumption. simpl.
        destruct (notifyListeners_session "error" CHAT_ROOM_DELETED
                    (log_http (GET_chat_room room) w)) as (_ & _ & _ & Hhttp & _).
        exact Hhttp.
      * rewrite (send_published room content sender photos w c Hc Hconn)
          by (rewrite Hget; congruence).
        reflexivity.
  - rewrite send_not_connected by exact Hconn. simpl. rewrite app_nil_r.
    apply (notifyListeners_session "error" CONNECTION_ERROR w).
Qed.

(** X13.  A send that throws has published nothing, on any client.  A send that
    returns has appended one frame, the serialised returned payload, to the
    outbox of the client the service holds, has left every other client
    alone, and has called no listener. *)
Theorem send_publishes_exactly_when_it_returns room content sender photos w :
  let r := sendMessageWithPhotos room content sender photos w in
  (forall e, r.1 = Throws e -> clients r.2 = clients w) /\
  (forall p, r.1 = Returns p ->
     exists c,
       client w = Some c /\ isConnected w = true /\
       clients r.2 = alter (publish (frame_of p)) c (clients w) /\
       listeners r.2 = listeners w /\ invoked r.2 = invoked w /\
       dispatched r.2 = dispatched w).
Proof.
  cbn zeta.
  destruct (isConnected w) eqn:Hconn.
  - destruct (isConnected_client w Hconn) as (c & cl & Hc & _ & _).
    assert (Hpub : axios_get room <> Rejected (Some 404%Z) ->
              sendMessageWithPhotos room content sender photos w
              = (Returns (payload_of room content sender (default [] photos) w),
                 update_client c
                   (publish (frame_of (payload_of room content sender (default [] photos) w)))
                   (log_http (GET_chat_room room) w)))
      by (apply send_published; assumption).
    destruct (axios_get room) as [[]|status] eqn:Hget.
    + rewrite Hpub by discriminate. simpl. split; [discriminate|].
      intros p [= <-]. exists c. repeat split; assumption.
    + destruct (decide (status = Some 404%Z)) as [->|Hne].
      * rewrite send_room_deleted by assumption. simpl. split; [|discriminate].
        intros e _.
        apply (notifyListeners_session "error" CHAT_ROOM_DELETED
                 (log_http (GET_chat_room room) w)).
      * rewrite Hpub by congruence. simpl. split; [discriminate|].
        intros p [= <-]. exists c. repeat split; assumption.
  - rewrite send_not_connected by exact Hconn. simpl. split; [|discriminate].
    intros e _. apply (notifyListeners_session "error" CONNECTION_ERROR w).
Qed.

(** X14.  Open, connect, send: after [initialize(uid)] and the acknowledgement of
    the new client's connection, a send to a room whose check is not answered
    404 returns a payload signed with [uid], and that payload is the only
    frame in the outbox of the new client. *)
Theorem open_connect_send_publishes_as_user uid room content sender photos w :
  axios_get room <> Rejected (Some 404%Z) ->
  exists c p,
    client (initialize uid w) = Some c /\
    let r := sendMessageWithPhotos room content sender photos
               (transport_connected c (initialize uid w)) in
    r.1 = Returns p /\
    senderId p = Some uid /\
    message p = message_of content (default [] photos) /\
    outbox <$> clients r.2 !! c = Some [frame_of p].
Proof.
  intros Hget.
  destruct (initialize_clients uid w) as [Hcs Hc].
  set (w2 := if isConnected w then disconnect (set_userId (Some uid) w)
             else set_userId (Some uid) w) in *.
  set (c := length (clients w2)) in *.
  set (w1 := transport_connected c (initialize uid w)).
  assert (Hat : clients (initialize uid w) !! c = Some (activate new_Client)).
  { rewrite Hcs. subst c. rewrite lookup_app_r by lia.
    rewrite Nat.sub_diag. reflexivity. }
  assert (Hc1 : client w1 = Some c) by exact Hc.
  assert (Hat1 : clients w1 !! c = Some (set_connected true (activate new_Client))).
  { change (clients w1)
      with (alter (λ cl, if active cl then set_connected true cl else cl) c
              (clients (initialize uid w))).
    rewrite list_lookup_alter_eq, Hat. reflexivity. }
  assert (Hconn : isConnected w1 = true).
  { unfold isConnected. rewrite Hc1. cbn [mbind option_bind]. rewrite Hat1. reflexivity. }
  assert (Huid : userId w1 = Some uid) by apply (initialize_userId uid w).
  exists c, (payload_of room content sender (default [] photos) w1).
  split; [exact Hc|]. cbn zeta. fold w1.
  rewrite (send_published room content sender photos w1 c Hc1 Hconn Hget).
  cbn [fst snd].
  split; [reflexivity|]. split; [exact Huid|]. split; [reflexivity|].
  set (fr := frame_of _).
  change (clients (update_client c (publish fr) (log_http (GET_chat_room room) w1)))
    with (alter (publish fr) c (clients w1)).
  rewrite list_lookup_alter_eq, Hat1. reflexivity.
Qed.

Lemma append_cons a s t : String a s +:+ t = String a (s +:+ t).
Proof. reflexivity. Qed.
Lemma prefix_spec needle :
  forall s, String.prefix needle s = true <-> exists post, s = needle +:+ post.
Proof.
  induction needle as [|a needle IH]; intros [|b s]; simpl.
  - split; [intros _; exists ""; reflexivity | reflexivity].
  - split; [intros _; exists (String b s); reflexivity | reflexivity].
  - split; [discriminate | intros [post Hpost]; discriminate].
  - destruct (Ascii.ascii_dec a b) as [->|Hne].
    + rewrite IH. split; intros [post Hpost]; exists post;
        rewrite append_cons in *; congruence.
    + split; [discriminate | intros [post Hpost]].
      rewrite append_cons in Hpost. congruence.
Qed.
Lemma includes_spec needle :
  forall s, includes s needle = true
            <-> exists pre post, s = pre +:+ needle +:+ post.
Proof.
  induction s as [|a s IH].
  - change (includes "" needle) with (String.prefix needle "" || false).
    rewrite orb_false_r, prefix_spec. split.
    + intros [post Hpost]. exists "", post. exact Hpost.
    + intros ([|b pre] & post & Hs); [exists post; exact Hs | discriminate].
  - change (includes (String a s) needle)
      with (String.prefix needle (String a s) || includes s needle).
    rewrite orb_true_iff, prefix_spec, IH. split.
    + intros [[post Hpost] | (pre & post & ->)].
      * exists "", post. exact Hpost.
      * exists (String a pre), post. reflexivity.
    + intros ([|b pre] & post & Hs).
      * left. exists post. exact Hs.
      * right. rewrite append_cons in Hs. injection Hs as <- ->. exists pre, post. reflexivity.
Qed.

(** X15.  The close handler tells the error listeners that the room was deleted
    exactly for a close with code 1000 whose reason contains "deleted" (as
    written, in lower case); for any other close, a missing reason included,
    it does nothing. *)
Theorem onWebSocketClose_reports_deletion_only evt w :
  let deletion :=
    close_code evt = 1000%Z /\
    exists r pre post, close_reason evt = Some r /\ r = pre +:+ "deleted" +:+ post in
  (deletion ->
     onWebSocketClose evt w = notifyListeners "error" CHAT_ROOM_DELETED w /\
     dispatched (onWebSocketClose evt w)
     = dispatched w ++ [("error", CHAT_ROOM_DELETED)]) /\
  (~ deletion -> onWebSocketClose evt w = w).
Proof.
  cbn zeta. unfold onWebSocketClose. split.
  - intros [Hcode (r & pre & post & Hr & Hsub)].
    rewrite bool_decide_true by exact Hcode. rewrite Hr. simpl.
    rewrite (proj2 (includes_spec "deleted" r)) by eauto.
    split; [reflexivity|].
    apply (notifyListeners_session "error" CHAT_ROOM_DELETED w).
  - intros Hnot.
    destruct (bool_decide (close_code evt = 1000%Z)) eqn:Hcode; [|reflexivity].
    apply bool_decide_eq_true in Hcode.
    destruct (close_reason evt) as [r|] eqn:Hr; [|reflexivity]. simpl.
    destruct (includes r "deleted") eqn:Hinc; [|reflexivity].
    exfalso. apply Hnot. split; [exact Hcode|].
    apply includes_spec in Hinc as (pre & post & Hs). eauto.
Qed.

Lemma map_uploadImage_world files room :
  forall w,
    (map_uploadImage files room w).2
    = foldl (λ w file, log_http (POST_upload file room) w) w
        (filter (λ file, (file_size file <= MAX_FILE_SIZE)%Z) files).
Proof.
  induction files as [|file files IH]; intros w; simpl; [reflexivity|].
  destruct (uploadImage file room w) as [p w1] eqn:Hp.
  specialize (IH w1).
  destruct (map_uploadImage files room w1) as [ps w2]. simpl in *.
  rewrite IH. rewrite filter_cons.
  destruct (decide (file_size file <= MAX_FILE_SIZE)%Z) as [Hok|Hbig].
  - rewrite uploadImage_within_limit in Hp by exact Hok.
    injection Hp as _ <-. reflexivity.
  - rewrite uploadImage_too_large in Hp by lia.
    injection Hp as _ <-. reflexivity.
Qed.

(** X16.  [uploadMultipleImages] starts every upload, whatever happens to the
    others: the backend receives one POST for each file within the size
    limit, in the order of the files, also when the call as a whole throws;
    nothing else of the page changes (no retry, no clean-up request). *)
Theorem uploadMultipleImages_posts_every_file_within_limit files room w :
  (uploadMultipleImages files room w).2
  = foldl (λ w file, log_http (POST_upload file room) w) w
      (filter (λ file, (file_size file <= MAX_FILE_SIZE)%Z) files).
Proof.
  unfold uploadMultipleImages.
  pose proof (map_uploadImage_world files room w) as H.
  destruct (map_uploadImage files room w) as [ps w']. exact H.
Qed.

End PipelineProperties.

(** ** Properties of the object storage service *)

Section ObjectStorageProperties.

Context {S : ObjectStorage}.

(** Whatever listing the client answers: with a listing of no key
    [deleteFolder] makes no other call and returns normally; with a non-empty
    listing it makes one [deleteObjects] call, after the listing, carrying
    every listed key in order, and ends as that call ends. *)
Theorem deleteFolder_lists_then_deletes_once prefix calls summaries :
  s3_listObjects bucketName prefix = Normal summaries ->
  (summaries = [] ->
     deleteFolder prefix calls = (Normal (), calls ++ [ListObjects bucketName prefix])) /\
  (summaries <> [] ->
     deleteFolder prefix calls
     = (s3_deleteObjects bucketName (getKey <$> summaries),
        calls ++ [ListObjects bucketName prefix;
                  DeleteObjects bucketName (getKey <$> summaries)])).
Proof.
  intros Hlist. unfold deleteFolder. rewrite Hlist. split.
  - intros ->. reflexivity.
  - intros Hne. rewrite bool_decide_true.
    + rewrite <- app_assoc. reflexivity.
    + destruct summaries; [congruence | discriminate].
Qed.

End ObjectStorageProperties.

(** ** Properties of [deleteFolder] on the object store *)

Lemma filter_filter_none {A} (P Q : A -> Prop)
    `{!forall x, Decision (P x)} `{!forall x, Decision (Q x)} (l : list A) :
  (forall x, x ∈ l -> P x -> ~ Q x) -> filter P (filter Q l) = [].
Proof.
  induction l as [|x l IH]; intros Hl; [reflexivity|].
  assert (IH' : filter P (filter Q l) = [])
    by (apply IH; intros y Hy; apply Hl; right; exact Hy).
  rewrite (filter_cons Q). destruct (decide (Q x)) as [Hq|Hq]; [|exact IH'].
  rewrite (filter_cons P). destruct (decide (P x)) as [Hp|Hp]; [|exact IH'].
  exfalso. exact (Hl x (list_elem_of_here x l) Hp Hq).
Qed.

Lemma filter_filter_all {A} (P Q : A -> Prop)
    `{!forall x, Decision (P x)} `{!forall x, Decision (Q x)} (l : list A) :
  (forall x, x ∈ l -> P x -> Q x) -> filter P (filter Q l) = filter P l.
Proof.
  induction l as [|x l IH]; intros Hl; [reflexivity|].
  assert (IH' : filter P (filter Q l) = filter P l)
    by (apply IH; intros y Hy; apply Hl; right; exact Hy).
  rewrite (filter_cons Q), (filter_cons P).
  destruct (decide (Q x)) as [Hq|Hq].
  - rewrite (filter_cons P). destruct (decide (P x)); [f_equal|]; exact IH'.
  - destruct (decide (P x)) as [Hp|Hp]; [|exact IH'].
    exfalso. exact (Hq (Hl x (list_elem_of_here x l) Hp)).
Qed.

Lemma filter_all_pass {A} (P : A -> Prop) `{!forall x, Decision (P x)} (l : list A) :
  (forall x, x ∈ l -> P x) -> filter P l = l.
Proof.
  induction l as [|x l IH]; intros Hl; [reflexivity|].
  rewrite filter_cons_True by (apply Hl; left).
  f_equal. apply IH. intros y Hy. apply Hl. right. exact Hy.
Qed.

Lemma first_page_under b prefix o : o ∈ first_page b prefix -> under prefix o.
Proof.
  unfold first_page. intros Hin.
  apply (subseteq_take (max_keys b)) in Hin.
  apply list_elem_of_filter in Hin. apply Hin.
Qed.

Lemma deleteFolder_on_bucket b prefix :
  deleteFolder (S := client_of b) prefix []
  = (Normal (),
     ListObjects (bucket_id b) prefix
     :: (if bool_decide (getKey <$> first_page b prefix <> [])
         then [DeleteObjects (bucket_id b) (getKey <$> first_page b prefix)]
         else [])).
Proof.
  unfold deleteFolder. simpl. rewrite decide_True by reflexivity.
  case_bool_decide; [|reflexivity].
  rewrite decide_True by reflexivity. reflexivity.
Qed.

Lemma after_deleteFolder_objects b prefix :
  objects (after_deleteFolder b prefix)
  = filter (λ o, getKey o ∉ getKey <$> first_page b prefix) (objects b).
Proof.
  unfold after_deleteFolder. rewrite deleteFolder_on_bucket.
  unfold after_calls. cbn [snd foldl after_call].
  case_bool_decide as Hkeys; cbn [foldl after_call].
  - rewrite decide_True by reflexivity. reflexivity.
  - rewrite Hkeys. symmetry. apply filter_all_pass.
    intros o _. apply not_elem_of_nil.
Qed.

(** C9 (as the code has it).  [deleteFolder] makes one [listObjects] call and
    then deletes, in one batch request, the keys of the page that call
    returned.  With an empty page it makes no other call, returns normally
    and leaves the bucket as it is.  The bucket loses exactly the objects
    whose key is on the page; so every key under the prefix is deleted, and
    no other key, when the keys under the prefix fit in one page.  The last
    part holds for any client, whatever it answers: an empty listing is
    followed by no call, a non-empty one by a single batch call with every
    listed key. *)
Theorem deleteFolder_deletes_one_listing_page b prefix :
  let r := deleteFolder (S := client_of b) prefix [] in
  r.1 = Normal () /\
  (first_page b prefix = [] ->
     r.2 = [ListObjects (bucket_id b) prefix] /\ after_deleteFolder b prefix = b) /\
  (first_page b prefix <> [] ->
     r.2 = [ListObjects (bucket_id b) prefix;
            DeleteObjects (bucket_id b) (getKey <$> first_page b prefix)]) /\
  objects (after_deleteFolder b prefix)
  = filter (λ o, getKey o ∉ getKey <$> first_page b prefix) (objects b) /\
  (length (filter (under prefix) (objects b)) <= max_keys b ->
     folder_deleted b prefix /\
     filter (λ o, ~ under prefix o) (objects (after_deleteFolder b prefix))
     = filter (λ o, ~ under prefix o) (objects b)) /\
  (forall (S : ObjectStorage) folder calls summaries,
     s3_listObjects bucketName folder = Normal summaries ->
     (summaries = [] ->
        deleteFolder folder calls
        = (Normal (), calls ++ [ListObjects bucketName folder])) /\
     (summaries <> [] ->
        deleteFolder folder calls
        = (s3_deleteObjects bucketName (getKey <$> summaries),
           calls ++ [ListObjects bucketName folder;
                     DeleteObjects bucketName (getKey <$> summaries)]))).
Proof.
  cbn zeta. rewrite deleteFolder_on_bucket. cbn [fst snd].
  split; [reflexivity|]. split; [|split; [|split; [|split]]];
    [| | | |intros S folder calls summaries;
            apply deleteFolder_lists_then_deletes_once].
  - intros Hempty. unfold after_deleteFolder. rewrite deleteFolder_on_bucket.
    rewrite Hempty. split; reflexivity.
  - intros Hpage. rewrite bool_decide_true; [reflexivity|].
    destruct (first_page b prefix); [congruence | discriminate].
  - apply after_deleteFolder_objects.
  - intros Hfit. unfold folder_deleted. rewrite after_deleteFolder_objects.
    assert (Hall : first_page b prefix = filter (under prefix) (objects b))
      by (apply take_ge; exact Hfit).
    split.
    + apply filter_filter_none. intros o Ho Hunder Hkey.
      apply Hkey. apply list_elem_of_fmap. exists o. split; [reflexivity|].
      rewrite Hall. apply list_elem_of_filter. split; assumption.
    + apply filter_filter_all. intros o Ho Hout Hkey.
      apply list_elem_of_fmap in Hkey as (o' & Heq & Ho').
      apply first_page_under in Ho'. apply Hout.
      unfold under in *. rewrite Heq. exact Ho'.
Qed.

(** ** Further properties of the object storage service *)

Section ObjectTransferProperties.

Context {S : ObjectStorage} {C : ObjectClient}.


(** X18.  [upload] returns normally exactly when the object was stored and then
    made public-read.  The ACL call is made only after a successful put; a
    put that fails leaves a single call, and an ACL call that fails leaves
    the object stored with the fault reported.  The put always carries the
    content type application/x-directory. *)
Theorem upload_stores_then_publishes filePath fileIn calls :
  let r := upload filePath fileIn calls in
  (r.1 = Done () <->
   s3_putObject bucketName filePath = Normal () /\
   s3_setObjectAcl bucketName filePath = Normal ()) /\
  (forall e, s3_putObject bucketName filePath = Exception e ->
     r = (StorageServiceException e,
          calls ++ [PutObject bucketName filePath fileIn "application/x-directory"])) /\
  (s3_putObject bucketName filePath = Normal () ->
     r.2 = calls ++ [PutObject bucketName filePath fileIn "application/x-directory";
                     SetObjectAcl bucketName filePath PublicRead] /\
     forall e, s3_setObjectAcl bucketName filePath = Exception e ->
               r.1 = StorageServiceException e).
Proof.
  cbn zeta. unfold upload.
  destruct (s3_putObject bucketName filePath) as [[]|e1].
  - destruct (s3_setObjectAcl bucketName filePath) as [[]|e2]; simpl.
    + split; [split; auto|]. split; [discriminate|]. intros _.
      split; [rewrite <- app_assoc; reflexivity | discriminate].
    + split; [split; [discriminate | intros [_ H]; discriminate]|].
      split; [discriminate|]. intros _.
      split; [rewrite <- app_assoc; reflexivity | intros e [= <-]; reflexivity].
  - simpl. split; [split; [discriminate | intros [H _]; discriminate]|].
    split; [intros e [= <-]; reflexivity | discriminate].
Qed.

Lemma copy_loop_normal answers :
  forall bytesArray out out',
    copy_loop answers bytesArray out = (Normal (), out') ->
    answers = ReadBytes <$> chunks_of answers.
Proof.
  induction answers as [|[bs|e] answers IH]; intros bytesArray out out' Hrun.
  - reflexivity.
  - cbn [copy_loop] in Hrun. cbv zeta in Hrun.
    destruct (out_write out _) as [[]|e]; [|discriminate].
    change (chunks_of (ReadBytes bs :: answers)) with (bs :: chunks_of answers).
    rewrite fmap_cons. f_equal. eapply IH. exact Hrun.
  - discriminate.
Qed.

Lemma copy_loop_written answers :
  forall bytesArray out res out',
    length bytesArray = 4096 ->
    Forall fits_buffer answers ->
    copy_loop answers bytesArray out = (res, out') ->
    exists copied,
      out' = out ++ concat copied /\
      copied `prefix_of` chunks_of answers /\
      (res = Normal () -> copied = chunks_of answers).
Proof.
  induction answers as [|[bs|e] answers IH];
    intros bytesArray out res out' Hlen Hfit Hrun.
  - injection Hrun as <- <-. exists []. simpl. rewrite app_nil_r.
    split; [reflexivity|]. split; reflexivity.
  - inversion Hfit as [|? ? Hbs Hrest]; subst. simpl in Hbs.
    cbn [copy_loop] in Hrun. cbv zeta in Hrun.
    assert (Hmin : min (length bs) (length bytesArray) = length bs) by lia.
    rewrite Hmin, firstn_all, take_app_length in Hrun.
    change (chunks_of (ReadBytes bs :: answers)) with (bs :: chunks_of answers).
    destruct (out_write out bs) as [[]|e].
    + destruct (IH (bs ++ drop (length bs) bytesArray) (out ++ bs) res out')
        as (copied & Hout & Hpre & Hall); try assumption.
      { rewrite length_app, length_drop. lia. }
      exists (bs :: copied). simpl. rewrite Hout, <- app_assoc.
      split; [reflexivity|]. split.
      * apply prefix_cons. exact Hpre.
      * intros Hres. rewrite (Hall Hres). reflexivity.
    + injection Hrun as <- <-. exists []. simpl. rewrite app_nil_r.
      split; [reflexivity|]. split; [apply prefix_nil | discriminate].
  - injection Hrun as <- <-. exists []. simpl. rewrite app_nil_r.
    split; [reflexivity|]. split; [apply prefix_nil | discriminate].
Qed.

(** X19.  When [download] returns normally, every read of the object succeeded,
    [fileOut] received exactly the bytes the reads delivered, in order and
    without any stale byte of the reused buffer, and both streams are
    closed. *)
Theorem download_done_copies_whole_object filePath :
  (download filePath).1 = Done () ->
  exists chunks,
    s3_getObject bucketName filePath = Normal (ReadBytes <$> chunks) /\
    in_closed (download filePath).2 = true /\
    out_closed (download filePath).2 = true /\
    (Forall (λ bs, length bs <= 4096) chunks ->
     written (download filePath).2 = concat chunks).
Proof.
  unfold download.
  destruct (s3_getObject bucketName filePath) as [answers|e]; [|discriminate].
  destruct (copy_loop answers (replicate 4096 Byte.x00) []) as [[[]|e] out] eqn:Hrun;
    [|discriminate].
  destruct in_close as [[]|e]; [|discriminate].
  destruct out_close as [[]|e]; [|discriminate].
  intros _. simpl.
  pose proof (copy_loop_normal answers _ _ _ Hrun) as Hall.
  exists (chunks_of answers).
  split; [f_equal; exact Hall|]. split; [reflexivity|]. split; [reflexivity|].
  intros Hsizes.
  destruct (copy_loop_written answers (replicate 4096 Byte.x00) [] (Normal ()) out)
    as (copied & Hout & _ & Hcopied); try assumption.
  - apply length_replicate.
  - rewrite Hall. apply Forall_fmap. exact Hsizes.
  - rewrite Hout, (Hcopied eq_refl). reflexivity.
Qed.


End ObjectTransferProperties.

(** ** The properties on concrete runs *)

(** C1, counterexample.  With listeners 1 and 2 registered in this order and
    listener 1 removing itself during its call, listener 2 is registered
    before and after the pass and is never called: the pass does not run on a
    snapshot. *)
Lemma self_removal_loses_next_listener :
  handler (Listeners := self_removing) 1 = [CallRemove "message" 1] /\
  ~ stable_pass (L := self_removing) "message" hello two_listeners 1.
Proof.
  split; [reflexivity|].
  intros [_ Hall]. specialize (Hall 2).
  assert (Hcalls : calls_between two_listeners
                     (notifyListeners (L := self_removing) "message" hello two_listeners)
                   = [(1, hello)]) by reflexivity.
  rewrite Hcalls in Hall.
  assert (Hin : (2, hello) ∈ [(1, hello)]).
  { apply Hall; vm_compute; [right; left | left]. }
  apply list_elem_of_singleton in Hin. discriminate.
Qed.

Lemma self_removal_skips_next_witness :
  invoked (notifyListeners (L := self_removing) "message" hello four_listeners)
  = [(3, hello); (1, hello); (4, hello)] /\
  listeners (notifyListeners (L := self_removing) "message" hello four_listeners) !! "message"
  = Some [3; 2; 4] /\
  length (filter (λ e, e.1 = 1)
            (calls_between four_listeners
               (notifyListeners (L := self_removing) "message" hello four_listeners)))
  = 1.
Proof.
  apply (self_removal_skips_next (L := self_removing) "message" hello four_listeners
           [3] 1 [2; 4]).
  - reflexivity.
  - intros Hin. apply list_elem_of_In in Hin. simpl in Hin.
    destruct Hin as [H|[H|[H|[]]]]; discriminate.
  - reflexivity.
  - repeat constructor.
  - repeat constructor.
Defined.

(** C2, counterexample.  Two [initialize] calls in a row, the first client
    still connecting when the second call comes: the guard does not fire, the
    first client is never deactivated, and two sessions are live. *)
Lemma second_open_while_connecting_leaves_two_live :
  isConnected (initialize "u1" initial_World) = false /\
  ~ live_count (run [OpInitialize "u1"; OpInitialize "u1"] initial_World) <= 1.
Proof.
  split; [reflexivity|].
  change (live_count (run [OpInitialize "u1"; OpInitialize "u1"] initial_World)) with 2.
  lia.
Qed.

Lemma one_live_session_witness :
  timely reopen_after_connect initial_World = true /\
  live_count (run (take 3 reopen_after_connect) initial_World) <= 1 /\
  clients (run (take 3 reopen_after_connect) initial_World) !! 0
  = Some (deactivate {| active := true; connected := true; outbox := [] |}).
Proof.
  split; [reflexivity|].
  destruct (one_live_session_when_connected_before_open reopen_after_connect 3 eq_refl)
    as [Hlive Hopen].
  split; [exact Hlive|].
  exact (proj1 (Hopen "u1" (run (take 2 reopen_after_connect) initial_World) 0
                  {| active := true; connected := true; outbox := [] |}
                  eq_refl eq_refl eq_refl)).
Defined.

Lemma send_blocked_only_by_404_witness :
  isConnected connected_page = true /\
  (let r := sendMessageWithPhotos (L := returning) (E := test_server)
              13 "hi" "CUSTOMER" None connected_page in
   r.1 = Throws (AxiosError (Some 404%Z)) /\
   clients r.2 = clients connected_page /\
   invoked r.2 = [(5, CHAT_ROOM_DELETED)]) /\
  (let r := sendMessageWithPhotos (L := returning) (E := test_server)
              99 "hi" "CUSTOMER" None connected_page in
   exists c cl p,
     clients connected_page !! c = Some cl /\
     r.1 = Returns p /\
     clients r.2 !! c = Some (publish (frame_of (E := test_server) p) cl)).
Proof.
  split; [reflexivity|].
  split.
  - destruct (send_blocked_only_by_404 (L := returning) (E := test_server)
                13 "hi" "CUSTOMER" None connected_page eq_refl) as [Hdeleted _].
    destruct (Hdeleted eq_refl) as (Hr & _ & _ & Hcs & Hinv).
    split; [exact Hr|]. split; [exact Hcs|].
    apply (Hinv [5]); [reflexivity | repeat constructor].
  - destruct (send_blocked_only_by_404 (L := returning) (E := test_server)
                99 "hi" "CUSTOMER" None connected_page eq_refl) as [_ Hother].
    destruct (Hother None eq_refl) as (c & cl & p & _ & Hcl & _ & Hr & Hpub & _);
      [discriminate|].
    exists c, cl, p. auto.
Defined.

Lemma send_without_session_witness :
  isConnected listening_page = false /\
  (let r := sendMessageWithPhotos (L := returning) (E := test_server)
              42 "hi" "CUSTOMER" None listening_page in
   r.1 = Throws (Error "WebSocket is not connected") /\
   dispatched r.2 = [("error", CONNECTION_ERROR)] /\
   invoked r.2 = [(5, CONNECTION_ERROR)] /\
   clients r.2 = [] /\ http r.2 = []).
Proof.
  split; [reflexivity|].
  destruct (send_without_session_is_connection_error (L := returning) (E := test_server)
              42 "hi" "CUSTOMER" None listening_page eq_refl)
    as (Hr & _ & _ & Hd & Hcs & Hhttp & Hinv).
  split; [exact Hr|]. split; [exact Hd|].
  split; [apply (Hinv [5]); [reflexivity | repeat constructor]|].
  split; [exact Hcs | exact Hhttp].
Defined.

Lemma send_body_defaulting_witness :
  exists p,
    (sendMessageWithPhotos (L := returning) (E := test_server)
       42 "" "ADMIN" (Some ["a.png"]) connected_page).1 = Returns p /\
    message p = "사진을 보냈습니다.".
Proof.
  destruct (send_body_defaulting (L := returning) (E := test_server)
              42 "" "ADMIN" ["a.png"] connected_page 0
              {| active := true; connected := true; outbox := [] |}
              eq_refl eq_refl eq_refl)
    as (p & Hr & _ & _ & Hplaceholder & _ & _); [discriminate|].
  exists p. split; [exact Hr|].
  apply Hplaceholder; [reflexivity | discriminate].
Defined.

(** C5, counterexample.  An error listener is registered; the upload of a
    file above the ceiling throws, and nothing reaches the listeners. *)
Lemma upload_failure_not_reported_to_listeners :
  (file_size above_ceiling > MAX_FILE_SIZE)%Z /\
  listeners listening_page !! "error" = Some [5] /\
  (uploadImage (E := test_server) above_ceiling 42 listening_page).1 = Throws FILE_TOO_LARGE /\
  ~ fails_on_both_channels (uploadImage (E := test_server) above_ceiling 42 listening_page)
      listening_page.
Proof.
  split; [reflexivity|]. split; [reflexivity|]. split; [reflexivity|].
  intros [_ (code & msg & Hd & _)].
  change (drop (length (dispatched listening_page))
            (dispatched (uploadImage (E := test_server) above_ceiling 42 listening_page).2))
    with (@nil (string * Data)) in Hd.
  inversion Hd.
Qed.

Lemma validation_failures_reported_witness :
  (let r := sendMessageWithPhotos (L := returning) (E := test_server)
              42 "hi" "CUSTOMER" None listening_page in
   r.1 = Throws (Error "WebSocket is not connected") /\
   calls_between listening_page r.2 = [(5, CONNECTION_ERROR)]) /\
  (let r := sendMessageWithPhotos (L := returning) (E := test_server)
              13 "hi" "CUSTOMER" None connected_page in
   r.1 = Throws (AxiosError (Some 404%Z)) /\
   calls_between connected_page r.2 = [(5, CHAT_ROOM_DELETED)]) /\
  invoked (uploadImage (E := test_server) above_ceiling 42 listening_page).2 = [].
Proof.
  destruct (validation_failures_reported (L := returning) (E := test_server)
              42 "hi" "CUSTOMER" None above_ceiling listening_page)
    as (Hnone & _ & Hupload).
  destruct (validation_failures_reported (L := returning) (E := test_server)
              13 "hi" "CUSTOMER" None above_ceiling connected_page)
    as (_ & Hdeleted & _).
  destruct (Hnone eq_refl) as (Hr1 & _ & (_ & _ & Hall1) & _).
  destruct (Hdeleted eq_refl eq_refl) as (Hr2 & _ & (_ & _ & Hall2) & _).
  split; [split; [exact Hr1|]|split; [split; [exact Hr2|]|]].
  - apply (Hall1 [5]); [reflexivity | repeat constructor].
  - apply (Hall2 [5]); [reflexivity | repeat constructor].
  - exact (proj2 (proj2 (proj2 (Hupload eq_refl)))).
Defined.

Lemma uploadImage_size_ceiling_witness :
  (uploadImage (E := test_server) above_ceiling 42 initial_World).1 = Throws FILE_TOO_LARGE /\
  http (uploadImage (E := test_server) above_ceiling 42 initial_World).2 = [] /\
  http (uploadImage (E := test_server) at_ceiling 42 initial_World).2 = [POST_upload at_ceiling 42] /\
  (uploadImage (E := test_server) at_ceiling 42 initial_World).1
  = Returns {| fileUrl := "https://cdn.example/max.png";
               fileName := "max.png"; fileSize := 10485760 |}.
Proof.
  destruct (uploadImage_size_ceiling (E := test_server) above_ceiling 42 initial_World)
    as (Hiff & Hnothing & _).
  destruct (uploadImage_size_ceiling (E := test_server) at_ceiling 42 initial_World)
    as (_ & _ & Hposted).
  assert (Hbig : (file_size above_ceiling > 10 * 1024 * 1024)%Z) by reflexivity.
  assert (Hfit : (file_size at_ceiling <= 10 * 1024 * 1024)%Z) by (simpl; lia).
  split; [apply Hiff; exact Hbig|].
  split; [rewrite (Hnothing Hbig); reflexivity|].
  destruct (Hposted Hfit) as [Hhttp Hr].
  split; [exact Hhttp | exact Hr].
Defined.

Lemma uploadMultipleImages_witness :
  (uploadMultipleImages (E := test_server) [small; at_ceiling] 42 initial_World).1
  = Returns [ {| fileUrl := "https://cdn.example/cat.png";
                 fileName := "cat.png"; fileSize := 2048 |};
              {| fileUrl := "https://cdn.example/max.png";
                 fileName := "max.png"; fileSize := 10485760 |} ] /\
  exists e,
    (uploadMultipleImages (E := test_server)
       [small; above_ceiling; at_ceiling] 42 initial_World).1 = Throws e.
Proof.
  split.
  - apply (uploadMultipleImages_all_or_nothing (E := test_server)
             [small; at_ceiling] 42 initial_World).
    repeat constructor.
  - destruct (uploadMultipleImages_all_or_nothing (E := test_server)
                [small; above_ceiling; at_ceiling] 42 initial_World)
      as (_ & Hfail & _).
    destruct (Hfail above_ceiling FILE_TOO_LARGE) as (e & He & _).
    + right; left.
    + reflexivity.
    + exists e. exact He.
Defined.

Lemma deleteFolder_witness :
  deleteFolder (S := bucket) "chat/7/" []
  = (Normal (), [ListObjects "imjm" "chat/7/"]) /\
  deleteFolder (S := bucket) "chat/8/" []
  = (Normal (), [ListObjects "imjm" "chat/8/";
                 DeleteObjects "imjm" ["chat/8/a.png"; "chat/8/b.png"]]).
Proof.
  split.
  - apply (deleteFolder_lists_then_deletes_once (S := bucket)
             "chat/7/" [] [] eq_refl). reflexivity.
  - apply (deleteFolder_lists_then_deletes_once (S := bucket) "chat/8/" []
             [ {| getKey := "chat/8/a.png"; getSize := 10 |};
               {| getKey := "chat/8/b.png"; getSize := 20 |} ] eq_refl).
    discriminate.
Defined.


(** The scenario of a plain text message: user u1, connected, sends "hi" to
    room 42, which exists. *)
Example send_hi_to_room_42 :
  sendMessage (L := returning) (E := test_server) 42 "hi" "CUSTOMER" connected_page
  = (Returns {| chatRoomId := 42; message := "hi"; senderType := "CUSTOMER";
                senderId := Some "u1"; photos := [] |},
     update_client 0
       (publish {| destination := "/app/chat.sendMessage"; body := "hi";
                   headers := [("content-type", "application/json")] |})
       (log_http (GET_chat_room 42) connected_page)).
Proof. reflexivity. Qed.

(** Three uploads, the second above the ceiling: the first and the third
    still reach the backend, and the call throws the size error. *)
Example upload_three_second_too_large :
  uploadMultipleImages (E := test_server) [small; above_ceiling; at_ceiling] 42 initial_World
  = (Throws FILE_TOO_LARGE,
     log_http (POST_upload at_ceiling 42) (log_http (POST_upload small 42) initial_World)).
Proof. reflexivity. Qed.

(** ** The further properties on concrete runs *)

Lemma removeListener_absent_witness :
  removeListener "message" 7 two_listeners = two_listeners /\
  removeListener "typing" 1 two_listeners = two_listeners.
Proof.
  split.
  - apply (removeListener_absent_is_noop "message" 7 two_listeners).
    vm_compute. intros Hin. apply list_elem_of_In in Hin. simpl in Hin.
    destruct Hin as [H|[H|[]]]; discriminate.
  - apply (removeListener_absent_is_noop "typing" 1 two_listeners).
    vm_compute. apply not_elem_of_nil.
Defined.

Lemma removeListener_first_registration_witness :
  exists pre post,
    [1; 2; 1] = pre ++ 1 :: post /\ (1 ∉ pre) /\
    removeListener "message" 1 (addListener "message" 1 two_listeners)
    = set_listeners (<["message" := pre ++ post]>
                       (listeners (addListener "message" 1 two_listeners)))
        (addListener "message" 1 two_listeners) /\
    (1 ∈ post ->
     1 ∈ default [] (listeners (removeListener "message" 1
                                   (addListener "message" 1 two_listeners))
                       !! "message")).
Proof.
  apply (removeListener_removes_first_registration "message" 1
           (addListener "message" 1 two_listeners) [1; 2; 1]).
  - reflexivity.
  - left.
Defined.

Lemma addListener_then_removeListener_witness :
  removeListener "message" 7 (addListener "message" 7 two_listeners) = two_listeners /\
  removeListener "typing" 7 (addListener "typing" 7 two_listeners)
  = set_listeners (<["typing" := []]> (listeners two_listeners)) two_listeners /\
  addListener "toString" 7 two_listeners = two_listeners.
Proof.
  assert (Hmessage : 7 ∉ default [] (listeners two_listeners !! "message")).
  { vm_compute. intros Hin. apply list_elem_of_In in Hin. simpl in Hin.
    destruct Hin as [H|[H|[]]]; discriminate. }
  assert (Htyping : 7 ∉ default [] (listeners two_listeners !! "typing"))
    by (vm_compute; apply not_elem_of_nil).
  assert (HtoString : 7 ∉ default [] (listeners two_listeners !! "toString"))
    by (vm_compute; apply not_elem_of_nil).
  split; [|split].
  - exact (proj1 (proj2 (addListener_then_removeListener
                           "message" 7 two_listeners Hmessage))
             (ex_intro _ [1; 2] eq_refl)).
  - exact (proj1 (addListener_then_removeListener "typing" 7 two_listeners Htyping)
             eq_refl).
  - exact (proj1 (proj2 (proj2 (proj2 (addListener_then_removeListener
                                          "toString" 7 two_listeners HtoString))
                           eq_refl))).
Defined.

Lemma notification_order_witness :
  invoked (notifyListeners (L := throwing) "message" hello
             (foldl (λ w l, addListener "message" l w) two_listeners [5; 3]))
  = [(1, hello); (2, hello); (5, hello); (3, hello)].
Proof.
  apply (notification_follows_registration_order (L := throwing)
           "message" hello two_listeners [1; 2] [5; 3]).
  - reflexivity.
  - repeat constructor.
Defined.

Lemma listener_added_during_pass_witness :
  invoked (notifyListeners (L := registering) "message" hello four_listeners)
  = [(3, hello); (1, hello); (2, hello); (4, hello)] /\
  listeners (notifyListeners (L := registering) "message" hello four_listeners) !! "message"
  = Some [3; 1; 2; 4; 9].
Proof.
  apply (listener_added_during_pass_waits (L := registering)
           "message" hello four_listeners [3] 1 [2; 4] 9).
  - reflexivity.
  - reflexivity.
  - repeat constructor.
  - repeat constructor.
Defined.


Lemma getCurrentUserId_witness :
  getCurrentUserId
    (run ([OpInitialize "u1"; EvConnected 0]
          ++ OpInitialize "u2" :: [EvConnected 1; OpDisconnect; EvClosed 1])
       initial_World)
  = Some "u2".
Proof.
  apply (getCurrentUserId_is_latest_initialize
           [OpInitialize "u1"; EvConnected 0] "u2"
           [EvConnected 1; OpDisconnect; EvClosed 1] initial_World).
  repeat constructor; discriminate.
Defined.

Lemma replaced_client_witness :
  client reopened_too_early = Some 1 /\
  exists cl,
    clients (run [EvConnected 0; OpDisconnect; OpInitialize "u1"; EvClosed 0]
               reopened_too_early) !! 0 = Some cl /\
    active cl = true.
Proof.
  split; [reflexivity|].
  apply (replaced_client_is_never_deactivated
           [EvConnected 0; OpDisconnect; OpInitialize "u1"; EvClosed 0]
           reopened_too_early 0 (activate new_Client)).
  - reflexivity.
  - reflexivity.
  - discriminate.
Defined.

Lemma opens_in_a_row_witness :
  live_count (run (OpInitialize <$> ["u1"; "u1"; "u2"]) initial_World) = 3.
Proof.
  apply (opens_in_a_row_pile_up ["u1"; "u1"; "u2"] initial_World). reflexivity.
Defined.

Lemma open_connect_send_witness :
  exists c p,
    client (initialize "u1" initial_World) = Some c /\
    let r := sendMessageWithPhotos (L := returning) (E := test_server) 42 "hi" "CUSTOMER" None
               (transport_connected c (initialize "u1" initial_World)) in
    r.1 = Returns p /\
    senderId p = Some "u1" /\
    message p = "hi" /\
    outbox <$> clients r.2 !! c = Some [frame_of (E := test_server) p].
Proof.
  apply (open_connect_send_publishes_as_user (L := returning) (E := test_server)
           "u1" 42 "hi" "CUSTOMER" None initial_World).
  discriminate.
Defined.

Lemma onWebSocketClose_witness :
  dispatched (onWebSocketClose (L := returning)
                {| close_code := 1000; close_reason := Some "room deleted by admin" |}
                listening_page)
  = [("error", CHAT_ROOM_DELETED)] /\
  onWebSocketClose (L := returning)
    {| close_code := 1006; close_reason := Some "room deleted by admin" |} listening_page
  = listening_page.
Proof.
  split.
  - apply (onWebSocketClose_reports_deletion_only (L := returning)
             {| close_code := 1000; close_reason := Some "room deleted by admin" |}
             listening_page).
    split; [reflexivity|].
    exists "room deleted by admin", "room ", " by admin". split; reflexivity.
  - apply (onWebSocketClose_reports_deletion_only (L := returning)
             {| close_code := 1006; close_reason := Some "room deleted by admin" |}
             listening_page).
    intros [Hcode _]. discriminate.
Defined.

Lemma download_done_witness :
  exists chunks,
    s3_getObject (ObjectClient := object_client) "imjm" "a.txt"
    = Normal (ReadBytes <$> chunks) /\
    in_closed (download (S := bucket) (C := object_client) "a.txt").2 = true /\
    out_closed (download (S := bucket) (C := object_client) "a.txt").2 = true /\
    (Forall (λ bs, length bs <= 4096) chunks ->
     written (download (S := bucket) (C := object_client) "a.txt").2 = concat chunks).
Proof.
  apply (download_done_copies_whole_object (S := bucket) (C := object_client) "a.txt").
  reflexivity.
Defined.


(** C9, counterexample.  A bucket with the page size of S3 and 1001 keys
    under the prefix: [deleteFolder] deletes the 1000 keys of the one page it
    lists, and the last key is still there. *)
Lemma truncated_listing_leaves_a_key :
  length (filter (under "chat/8/") (objects crowded_bucket)) = 1001 /\
  max_keys crowded_bucket = 1000 /\
  ~ folder_deleted crowded_bucket "chat/8/".
Proof.
  split; [vm_compute; reflexivity|]. split; [reflexivity|].
  unfold folder_deleted. intros Hnone.
  assert (Hleft : length (filter (under "chat/8/")
                            (objects (after_deleteFolder crowded_bucket "chat/8/"))) = 1)
    by (vm_compute; reflexivity).
  rewrite Hnone in Hleft. discriminate.
Qed.

Lemma deleteFolder_one_page_witness :
  (deleteFolder (S := client_of small_bucket) "chat/5/" []).2
  = [ListObjects "imjm" "chat/5/"] /\
  folder_deleted small_bucket "chat/8/" /\
  objects (after_deleteFolder small_bucket "chat/8/")
  = [ {| getKey := "chat/7/a.png"; getSize := 10 |};
      {| getKey := "chat/9/a.png"; getSize := 30 |} ].
Proof.
  destruct (deleteFolder_deletes_one_listing_page small_bucket "chat/5/")
    as (_ & Hempty & _).
  destruct (deleteFolder_deletes_one_listing_page small_bucket "chat/8/")
    as (_ & _ & _ & Hobjects & Hfit & _).
  split; [exact (proj1 (Hempty eq_refl))|].
  split.
  - apply Hfit. vm_compute. lia.
  - rewrite Hobjects. reflexivity.
Defined.
